(** * The Idealist-to-geo conversion endpoint

    A shallow embedding of [backend/routers/gemini/idealist_to_geo.py]:
    the [convert_idealist_to_geo] handler, its two import helpers, the
    prompt it renders and the bounded retry loop it runs around the
    completion client and the response parser.

    The handler is effectful: it calls four collaborators
    ([search_volunteer_links], [generate_response],
    [parse_gemini_latlon_list], [add_links_to_locations]), imports two
    modules by name, reads [os.environ] and sleeps.  The embedding keeps
    these as they are in the code: a [World] answers every external
    call, and the handler is a computation in a small trace-and-exception
    monad which records each external call together with its answer.
    Writes to the logger do not influence control flow and are left
    out. *)

From Stdlib Require Import ZArith NArith QArith String Ascii List Bool Lia.
From Stdlib Require Import DecimalString.
From stdpp Require Import base option list strings gmap.

Local Open Scope Z_scope.
Local Open Scope string_scope.
Local Open Scope list_scope.

(** ** Python values the handler touches *)

Module Py.

(** Exceptions.  The handlers in the source are [except HTTPException],
    [except SystemExit] and [except Exception]; [SystemExit] and
    [KeyboardInterrupt] derive from [BaseException] only, every other
    constructor stands for a subclass of [Exception]. *)
Inductive exn : Type :=
| HTTPException (status_code : Z) (detail : string)
| ImportError (msg : string)
| ValueError (msg : string)
| AttributeError (msg : string)
| RuntimeError (msg : string)
| SystemExit (code : Z)
| KeyboardInterrupt.

Definition isinstance_Exception (e : exn) : bool :=
  match e with
  | SystemExit _ | KeyboardInterrupt => false
  | _ => true
  end.

Definition isinstance_HTTPException (e : exn) : bool :=
  match e with
  | HTTPException _ _ => true
  | _ => false
  end.

(** The outcome of calling into a collaborator: it raises or it returns. *)
Definition result (A : Type) : Type := exn + A.

(** Truthiness of the values tested with [or] and [if]. *)
Definition truthy_str (o : option string) : bool :=
  match o with
  | Some (String _ _) => true
  | _ => false
  end.

Definition truthy_list {A : Type} (l : list A) : bool :=
  match l with
  | [] => false
  | _ :: _ => true
  end.

(** [a or b] on optional strings: [a] when it is truthy, else [b]. *)
Definition or_str (a b : option string) : option string :=
  if truthy_str a then a else b.

(** *** White space and [str.strip()]

    Strings are kept as their UTF-8 bytes.  The white space of [str] is
    the ASCII set below together with U+0085, U+00A0, U+1680,
    U+2000-U+200A, U+2028, U+2029, U+202F, U+205F and U+3000, which
    occupy two or three bytes. *)

Definition is_space (c : ascii) : bool :=
  let n := nat_of_ascii c in
  ((9 <=? n) && (n <=? 13) || (28 <=? n) && (n <=? 32))%nat.

(** U+0085 and U+00A0: C2 85, C2 A0. *)
Definition space2 (b1 b2 : ascii) : bool :=
  let n1 := nat_of_ascii b1 in
  let n2 := nat_of_ascii b2 in
  ((n1 =? 194) && ((n2 =? 133) || (n2 =? 160)))%nat.

(** U+1680: E1 9A 80.  U+2000-U+200A, U+2028, U+2029, U+202F: E2 80 xx.
    U+205F: E2 81 9F.  U+3000: E3 80 80. *)
Definition space3 (b1 b2 b3 : ascii) : bool :=
  let n1 := nat_of_ascii b1 in
  let n2 := nat_of_ascii b2 in
  let n3 := nat_of_ascii b3 in
  ((n1 =? 225) && (n2 =? 154) && (n3 =? 128)
   || (n1 =? 226) && (n2 =? 128)
      && ((128 <=? n3) && (n3 <=? 138) || (n3 =? 168) || (n3 =? 169) || (n3 =? 175))
   || (n1 =? 226) && (n2 =? 129) && (n3 =? 159)
   || (n1 =? 227) && (n2 =? 128) && (n3 =? 128))%nat.

(** Drop the white space at the front; [p2] and [p3] recognise the
    two-byte and three-byte characters in the order the bytes are met. *)
Fixpoint lstrip_by (p2 : ascii -> ascii -> bool)
    (p3 : ascii -> ascii -> ascii -> bool) (s : list ascii) : list ascii :=
  match s with
  | [] => []
  | b1 :: s1 =>
      if is_space b1 then lstrip_by p2 p3 s1
      else
        match s1 with
        | [] => s
        | b2 :: s2 =>
            if p2 b1 b2 then lstrip_by p2 p3 s2
            else
              match s2 with
              | [] => s
              | b3 :: s3 => if p3 b1 b2 b3 then lstrip_by p2 p3 s3 else s
              end
        end
  end.

Definition lstrip (s : list ascii) : list ascii := lstrip_by space2 space3 s.

(** The same from the back, on the reversed bytes. *)
Definition lstrip_reversed (s : list ascii) : list ascii :=
  lstrip_by (fun b2 b1 => space2 b1 b2) (fun b3 b2 b1 => space3 b1 b2 b3) s.

(** [s.strip()]. *)
Definition strip (s : list ascii) : list ascii :=
  rev (lstrip_reversed (rev (lstrip s))).

(** Whether the bytes start with a white-space character. *)
Definition space_ahead (p2 : ascii -> ascii -> bool)
    (p3 : ascii -> ascii -> ascii -> bool) (s : list ascii) : bool :=
  match s with
  | [] => false
  | b1 :: s1 =>
      is_space b1
      || match s1 with
         | [] => false
         | b2 :: s2 =>
             p2 b1 b2
             || match s2 with
                | [] => false
                | b3 :: _ => p3 b1 b2 b3
                end
         end
  end.

(** *** [int(str)]

    Non-ASCII blanks count as spaces and non-ASCII decimal digits as
    their ASCII digits (Unicode 14).  The text may be surrounded by the
    blanks of C ([\t\n\v\f\r] and the space; the separators 0x1C-0x1F
    are not among them); then come an optional sign and a non-empty run
    of decimal digits in which single underscores may separate digits.
    A run of more than 4300 digits exceeds the interpreter's default
    limit.  Anything else is a [ValueError] whose message ends in the
    first 200 characters of [repr(text)]; [repr] is the one of ASCII
    text. *)

Definition is_ascii (s : string) : bool :=
  forallb (fun c => (nat_of_ascii c <? 128)%nat) (list_ascii_of_string s).

Definition int_space (c : ascii) : bool :=
  let n := nat_of_ascii c in
  ((9 <=? n) && (n <=? 13) || (n =? 32))%nat.

Fixpoint int_lstrip (s : list ascii) : list ascii :=
  match s with
  | c :: s' => if int_space c then int_lstrip s' else s
  | [] => []
  end.

Definition digit_value (c : ascii) : option Z :=
  let n := nat_of_ascii c in
  if ((48 <=? n) && (n <=? 57))%nat then Some (Z.of_nat n - 48) else None.

(** *** [json.dumps(list_of_str, ensure_ascii=False)] *)

Definition dq : string := String "034"%char "".
Definition nl : string := String "010"%char "".
Definition backslash : string := String "092"%char "".

Definition hex_digit (n : nat) : ascii :=
  ascii_of_nat (if (n <? 10)%nat then 48 + n else 87 + n)%nat.

(** One character of a JSON string: the quote, the backslash and the
    control characters below 0x20 are escaped, everything else is
    copied. *)
Definition json_escape_char (c : ascii) : string :=
  let n := nat_of_ascii c in
  if (n =? 34)%nat then backslash ++ dq
  else if (n =? 92)%nat then backslash ++ backslash
  else if (n =? 8)%nat then backslash ++ "b"
  else if (n =? 12)%nat then backslash ++ "f"
  else if (n =? 10)%nat then backslash ++ "n"
  else if (n =? 13)%nat then backslash ++ "r"
  else if (n =? 9)%nat then backslash ++ "t"
  else if (n <? 32)%nat
       then backslash ++ "u00" ++
            String (hex_digit (n / 16)) (String (hex_digit (n mod 16)) "")
  else String c "".

Fixpoint json_escape (s : string) : string :=
  match s with
  | EmptyString => ""
  | String c s' => json_escape_char c ++ json_escape s'
  end.

Definition json_string (s : string) : string := dq ++ json_escape s ++ dq.

Fixpoint join (sep : string) (l : list string) : string :=
  match l with
  | [] => ""
  | [x] => x
  | x :: l' => x ++ sep ++ join sep l'
  end.

Definition json_dumps (l : list string) : string :=
  "[" ++ join ", " (map json_string l) ++ "]".

(** *** [repr(str)] and [int(str)] *)

(** One character inside the quotes of [repr]: the quote in use and the
    backslash get a backslash, tab, newline and carriage return their
    letter, the other control characters and DEL a [\xNN]. *)
Definition repr_char (quote c : ascii) : string :=
  let n := nat_of_ascii c in
  if (Ascii.eqb c quote || (n =? 92)%nat)%bool then backslash ++ String c ""
  else if (n =? 9)%nat then backslash ++ "t"
  else if (n =? 10)%nat then backslash ++ "n"
  else if (n =? 13)%nat then backslash ++ "r"
  else if ((n <? 32) || (n =? 127))%nat
       then backslash ++ "x" ++
            String (hex_digit (n / 16)) (String (hex_digit (n mod 16)) "")
  else String c "".

(** Double quotes are used when the text has a single quote and no
    double quote; single quotes otherwise. *)
Definition repr (s : string) : string :=
  let cs := list_ascii_of_string s in
  let quote :=
    if (existsb (Ascii.eqb "'") cs && negb (existsb (Ascii.eqb "034") cs))%bool
    then "034"%char else "'"%char in
  String quote (String.concat "" (map (repr_char quote) cs)) ++ String quote "".

(** The first character of UTF-8 bytes, with the bytes after it. *)
Definition continuation (c : ascii) : bool :=
  let n := N_of_ascii c in ((128 <=? n) && (n <=? 191))%N.

Definition decode (s : list ascii) : option (N * list ascii) :=
  match s with
  | [] => None
  | b1 :: s1 =>
      let n1 := N_of_ascii b1 in
      if (n1 <? 128)%N then Some (n1, s1)
      else if ((194 <=? n1) && (n1 <=? 223))%N then
        match s1 with
        | b2 :: s2 =>
            if continuation b2
            then Some (((n1 - 192) * 64 + (N_of_ascii b2 - 128))%N, s2)
            else None
        | _ => None
        end
      else if ((224 <=? n1) && (n1 <=? 239))%N then
        match s1 with
        | b2 :: b3 :: s3 =>
            let n2 := N_of_ascii b2 in
            if (continuation b2 && continuation b3
                && (negb (n1 =? 224) || (160 <=? n2))
                && (negb (n1 =? 237) || (n2 <=? 159)))%N
            then Some (((n1 - 224) * 4096 + (n2 - 128) * 64
                        + (N_of_ascii b3 - 128))%N, s3)
            else None
        | _ => None
        end
      else if ((240 <=? n1) && (n1 <=? 244))%N then
        match s1 with
        | b2 :: b3 :: b4 :: s4 =>
            let n2 := N_of_ascii b2 in
            if (continuation b2 && continuation b3 && continuation b4
                && (negb (n1 =? 240) || (144 <=? n2))
                && (negb (n1 =? 244) || (n2 <=? 143)))%N
            then Some (((n1 - 240) * 262144 + (n2 - 128) * 4096
                        + (N_of_ascii b3 - 128) * 64
                        + (N_of_ascii b4 - 128))%N, s4)
            else None
        | _ => None
        end
      else None
  end.

Definition wide_space (cp : N) : bool :=
  ((cp =? 133) || (cp =? 160) || (cp =? 5760)
   || (8192 <=? cp) && (cp <=? 8202)
   || (cp =? 8232) || (cp =? 8233) || (cp =? 8239) || (cp =? 8287)
   || (cp =? 12288))%N.

(** Where the runs of ten decimal digits start. *)
Definition decimal_zeros : list N :=
  [48; 1632; 1776; 1984; 2406; 2534; 2662; 2790; 2918; 3046; 3174; 3302;
   3430; 3558; 3664; 3792; 3872; 4160; 4240; 6112; 6160; 6470; 6608; 6784;
   6800; 6992; 7088; 7232; 7248; 42528; 43216; 43264; 43472; 43504; 43600;
   44016; 65296; 66720; 68912; 69734; 69872; 69942; 70096; 70384; 70736;
   70864; 71248; 71360; 71472; 71904; 72016; 72784; 73040; 73120; 92768;
   92864; 93008; 120782; 120792; 120802; 120812; 120822; 123200; 123632;
   125264; 130032]%N.

Definition to_decimal (cp : N) : option N :=
  (fun zero => cp - zero)%N
  <$> List.find (fun zero => ((zero <=? cp) && (cp <? zero + 10))%N) decimal_zeros.

(** The text with blanks and digits brought to ASCII; it ends in a
    question mark at the first character that is out of place. *)
Fixpoint to_ascii (fuel : nat) (s : list ascii) : list ascii :=
  match fuel, s with
  | O, _ | _, [] => []
  | S fuel', b1 :: s1 =>
      if (N_of_ascii b1 <? 127)%N then b1 :: to_ascii fuel' s1
      else
        match decode s with
        | Some (cp, rest) =>
            if wide_space cp then " "%char :: to_ascii fuel' rest
            else match to_decimal cp with
                 | Some d => ascii_of_N (48 + d) :: to_ascii fuel' rest
                 | None => ["?"%char]
                 end
        | None => ["?"%char]
        end
  end.

(** [scan value count underscore s]: the run of digits and underscores
    at the front of [s], its value, the number of its digits and what
    follows it; [None] when two underscores meet or one ends the run. *)
Fixpoint scan (value : Z) (count : nat) (underscore : bool) (s : list ascii)
  : option (Z * nat * list ascii) :=
  match s with
  | [] => if underscore then None else Some (value, count, [])
  | c :: s' =>
      match digit_value c with
      | Some d => scan (10 * value + d) (S count) false s'
      | None =>
          if Ascii.eqb c "_"
          then (if underscore then None else scan value count true s')
          else (if underscore then None else Some (value, count, s))
      end
  end.

Definition max_str_digits : nat := 4300.

Definition invalid_literal (s : string) : exn :=
  ValueError ("invalid literal for int() with base 10: "
              ++ substring 0 200 (repr s)).

Definition exceeds_limit (count : nat) : exn :=
  ValueError ("Exceeds the limit (4300 digits) for integer string conversion: value has "
              ++ NilZero.string_of_uint (Nat.to_uint count)
              ++ " digits; use sys.set_int_max_str_digits() to increase the limit").

Definition int (s : string) : result Z :=
  let bytes := list_ascii_of_string s in
  let text := int_lstrip (to_ascii (length bytes) bytes) in
  let signed :=
    match text with
    | "-"%char :: ds => (true, ds)
    | "+"%char :: ds => (false, ds)
    | ds => (false, ds)
    end in
  match snd signed with
  | "_"%char :: _ => inl (invalid_literal s)
  | ds =>
      match scan 0 0 false ds with
      | None => inl (invalid_literal s)
      | Some (value, count, rest) =>
          if (max_str_digits <? count)%nat then inl (exceeds_limit count)
          else if (count =? 0)%nat then inl (invalid_literal s)
          else match int_lstrip rest with
               | [] => inr (if fst signed then - value else value)
               | _ => inl (invalid_literal s)
               end
      end
  end.

End Py.


Import Py.

(** ** Data model *)

(** A link is an opaque URL string. *)
Definition Link : Type := string.

(** JSON-like payload of a location dictionary. *)
#[warnings="-register-all"]
Inductive value : Type :=
| VStr (s : string)
| VNum (q : Q)
| VList (l : list value).

(** A location is a [Dict[str, Any]]; the parser produces the keys
    [latlon] and [country], the link helper adds [link] and [name]. *)
Abbreviation Location := (gmap string value).

(** The value stored under [idealist_json] in the search result's
    dictionary: the key may be missing, may hold [None], or may hold a
    dictionary whose [links] entry is read. *)
Inductive idealist_json_field : Type :=
| IJMissing
| IJNone
| IJDict (links : option (list Link)).

(** [search_result.dict()], restricted to the two keys the handler reads.
    [sd_links] is [search_dict.get("links")]: [None] when the key is
    missing or holds [None]. *)
Record search_dict : Type := {
  sd_links : option (list Link);
  sd_idealist_json : idealist_json_field
}.

(** What an imported module exposes under a name. *)
Inductive attribute : Type :=
| Function
| Data.

Abbreviation module := (gmap string attribute).

Definition getattr (m : module) (name : string) : option attribute := m !! name.

Definition callable (o : option attribute) : bool :=
  match o with
  | Some Function => true
  | _ => false
  end.

(** What [generate_response] hands back: a [str], or some other object
    whose [str()] rendering is kept. *)
Inductive gen_value : Type :=
| GenStr (s : string)
| GenObject (str_ : string).

Definition str_of (g : gen_value) : string :=
  match g with
  | GenStr s => s
  | GenObject s => s
  end.

(** ** The world outside the handler

    [generate_response] and the parser are invoked once per attempt and
    may answer differently each time: their first argument is the number
    of earlier invocations of the same collaborator. *)
Record World : Type := {
  environ : gmap string string;
  search_volunteer_links : string -> option Z -> result search_dict;
  import_module : string -> result module;
  generate_response : nat -> string -> string -> option string -> result gen_value;
  parse_gemini_latlon_list : nat -> string -> result (option (list Location));
  add_links_to_locations : list Location -> list Link -> result (list Location)
}.

(** ** Traces *)

Inductive event : Type :=
| Search (country : string) (limit : option Z) (r : result search_dict)
| Import (name : string) (r : result module)
| Generate (system_prompt prompt : string) (model : option string)
           (r : result gen_value)
| Sleep (seconds : Q)
| Parse (text : string) (r : result (option (list Location)))
| AddLinks (parsed : list Location) (links : list Link)
           (r : result (list Location)).

Definition trace : Type := list event.

Definition is_generate (ev : event) : bool :=
  match ev with Generate _ _ _ _ => true | _ => false end.

Definition is_parse (ev : event) : bool :=
  match ev with Parse _ _ => true | _ => false end.

(** Number of invocations of a collaborator recorded so far. *)
Fixpoint count (p : event -> bool) (tr : trace) : nat :=
  match tr with
  | [] => 0
  | ev :: tr' => ((if p ev then 1 else 0) + count p tr')%nat
  end.

(** ** Statements as computations

    A statement runs on the trace so far and completes normally, by a
    [return] of the enclosing function, or by raising. *)
Inductive completion (A : Type) : Type :=
| Normal (a : A) (tr : trace)
| Return (v : list Location) (tr : trace)
| Raise (e : exn) (tr : trace)
| OutOfFuel.

Arguments Normal {A} a tr.
Arguments Return {A} v tr.
Arguments Raise {A} e tr.
Arguments OutOfFuel {A}.

Definition M (A : Type) : Type := trace -> completion A.

Definition ret {A : Type} (a : A) : M A := fun tr => Normal a tr.

Definition bind {A B : Type} (m : M A) (k : A -> M B) : M B :=
  fun tr =>
    match m tr with
    | Normal a tr' => k a tr'
    | Return v tr' => Return v tr'
    | Raise e tr' => Raise e tr'
    | OutOfFuel => OutOfFuel
    end.

Definition return_ {A : Type} (v : list Location) : M A := fun tr => Return v tr.

Definition raise {A : Type} (e : exn) : M A := fun tr => Raise e tr.

Definition out_of_fuel {A : Type} : M A := fun _ => OutOfFuel.

(** An expression that raises or yields a value, without an external call. *)
Definition lift {A : Type} (r : result A) : M A :=
  match r with
  | inl e => raise e
  | inr a => ret a
  end.

(** An external call: its answer is computed from the trace so far,
    recorded, and then raised or returned. *)
Definition external {A : Type} (answer : trace -> result A)
    (record : result A -> event) : M A :=
  fun tr =>
    let r := answer tr in
    match r with
    | inl e => Raise e (tr ++ [record r])
    | inr a => Normal a (tr ++ [record r])
    end.

(** [try: body  except ...: handler]: [handlers e] is the first clause
    that matches [e], if any. *)
Definition try_except {A : Type} (body : M A) (handlers : exn -> option (M A)) : M A :=
  fun tr =>
    match body tr with
    | Raise e tr' =>
        match handlers e with
        | Some h => h tr'
        | None => Raise e tr'
        end
    | c => c
    end.

(** The clause [except Exception: h]. *)
Definition except_Exception {A : Type} (h : M A) (e : exn) : option (M A) :=
  if isinstance_Exception e then Some h else None.

Notation "x <- m ;; k" := (bind m (fun x => k))
  (at level 100, m at next level, right associativity).
Notation "m ;;; k" := (bind m (fun _ => k))
  (at level 100, right associativity).

(** ** The handler *)

(** The instruction text of the handler, with the serialised link array
    spliced in. *)
Definition system_prompt (links_json : string) : string :=
  "You are given a JSON array of URLs (links) pointing to volunteer opportunity pages." ++ nl ++
  "For each URL produce a JSON object with EXACTLY these two keys:" ++ nl ++
  "  - " ++ dq ++ "latlon" ++ dq ++
  ": an array [lat, lon] where lat and lon are parseable floats (latitude first)," ++ nl ++
  "  - " ++ dq ++ "country" ++ dq ++
  ": the country for that lat/lon, as a lower-case English name (for example: 'japan')." ++ nl ++ nl ++
  "IMPORTANT:" ++ nl ++
  " - Output MUST be a single valid JSON array and NOTHING else (no markdown or commentary)." ++ nl ++
  " - Ensure lat and lon are parseable floats and in the order [latitude, longitude]." ++ nl ++
  " - Make sure that country is a full English name in lower case (no abbreviations)." ++ nl ++
  " - Return entries in the same order as the input links array. Omit any link if you cannot find coordinates." ++ nl ++ nl ++
  "EXAMPLE OUTPUT FORMAT:" ++ nl ++
  "[" ++ nl ++
  "  {" ++ dq ++ "latlon" ++ dq ++ ": [35.6897, 139.6922], " ++
  dq ++ "country" ++ dq ++ ": " ++ dq ++ "japan" ++ dq ++ "}," ++ nl ++
  "  {" ++ dq ++ "latlon" ++ dq ++ ": [-1.2833, 36.8167], " ++
  dq ++ "country" ++ dq ++ ": " ++ dq ++ "kenya" ++ dq ++ "}" ++ nl ++
  "]" ++ nl ++ nl ++
  "Input links array:" ++ nl ++
  links_json ++ nl ++ nl ++
  "Reply now with ONLY the JSON array (no other text).".

(** [search_dict.get("links") or
     search_dict.get("idealist_json", {}).get("links") or []].
    A [None] stored under [idealist_json] has no [get]. *)
Definition links_of (sd : search_dict) : result (list Link) :=
  match sd_links sd with
  | Some (l :: ls) => inr (l :: ls)
  | _ =>
      match sd_idealist_json sd with
      | IJMissing => inr []
      | IJNone => inl (AttributeError "'NoneType' object has no attribute 'get'")
      | IJDict (Some (l :: ls)) => inr (l :: ls)
      | IJDict _ => inr []
      end
  end.

(** The sleeps of the retry loop, in seconds: [0.8 * attempt] after a
    failed call, [0.6 * attempt] after an empty parse.  The float product
    of the source is kept as the exact rational. *)
Definition transport_backoff (attempt : Z) : Q := (0.8 * inject_Z attempt)%Q.
Definition parse_backoff (attempt : Z) : Q := (0.6 * inject_Z attempt)%Q.

Definition upstream_failed : exn :=
  HTTPException 502 "Upstream Gemini call failed repeatedly.".
Definition upstream_unparsable : exn :=
  HTTPException 502 "Failed to obtain parsable response from Gemini.".

Section Handler.

Variable w : World.

(** [os.environ.get(name, default)] with [default=None]. *)
Definition environ_get (name : string) : option string := environ w !! name.

Definition search (country : string) (limit : option Z) : M search_dict :=
  external (fun _ => search_volunteer_links w country limit) (Search country limit).

Definition importlib_import_module (name : string) : M module :=
  external (fun _ => import_module w name) (Import name).

Definition generate_fn (system_prompt prompt : string) (model : option string)
  : M gen_value :=
  external
    (fun tr => generate_response w (count is_generate tr) system_prompt prompt model)
    (Generate system_prompt prompt model).

Definition parse_fn (text : string) : M (option (list Location)) :=
  external (fun tr => parse_gemini_latlon_list w (count is_parse tr) text)
           (Parse text).

Definition add_links (parsed : list Location) (links : list Link)
  : M (list Location) :=
  external (fun _ => add_links_to_locations w parsed links) (AddLinks parsed links).

Definition sleep (seconds : Q) : M unit :=
  fun tr => Normal tt (tr ++ [Sleep seconds]).

(** [import_call_gemini_module]: both clauses log and re-raise. *)
Definition import_call_gemini_module : M module :=
  try_except (importlib_import_module "gemini.call_gemini")
    (fun e =>
       match e with
       | SystemExit _ => Some (raise e)
       | _ => except_Exception (raise e) e
       end).

(** [import_parser_module]: the function is looked up in the imported
    module; a missing or non-callable attribute is an [ImportError]. *)
Definition import_parser_module : M unit :=
  try_except
    (parser_mod <- importlib_import_module "gemini.parse_gemini_latlon_list" ;;
     let parse_fn := getattr parser_mod "parse_gemini_latlon_list" in
     if negb (callable parse_fn)
     then raise (ImportError
       "parse_gemini_latlon_list not found or not callable in gemini.parse_gemini_latlon_list")
     else ret tt)
    (fun e => except_Exception (raise e) e).

Section Loop.

Variables (model STRONG_MODEL FAST_MODEL : option string).
Variable (MAX_RETRIES : Z).
Variable (prompt : string).

(** The model chosen at the top of an attempt. *)
Definition model_to_use (attempt : Z) : option string :=
  if (attempt =? 1)%Z
  then or_str model FAST_MODEL
  else or_str (or_str model STRONG_MODEL) FAST_MODEL.

(** The [model=] keyword of the call: passed only when truthy. *)
Definition model_keyword (attempt : Z) : option string :=
  if truthy_str (model_to_use attempt) then model_to_use attempt else None.

(** [while attempt < MAX_RETRIES: ...].  The result is the value of
    [parsed_locations] when the loop is left; [fuel] bounds the number of
    iterations. *)
Fixpoint retry_loop (fuel : nat) (attempt : Z)
    (parsed_locations : option (list Location)) : M (option (list Location)) :=
  if (attempt <? MAX_RETRIES)%Z then
    match fuel with
    | O => out_of_fuel
    | S fuel' =>
        let attempt := attempt + 1 in
        called <-
          try_except
            (gemini_text <- generate_fn prompt "" (model_keyword attempt) ;;
             ret (Some (str_of gemini_text)))
            (except_Exception
               (if (attempt <? MAX_RETRIES)%Z
                then (sleep (transport_backoff attempt) ;;; ret None)
                else raise upstream_failed)) ;;
        match called with
        | None => retry_loop fuel' attempt parsed_locations
        | Some gemini_text_str =>
            parsed <-
              try_except
                (p <- parse_fn gemini_text_str ;;
                 ret (match p with Some l => l | None => [] end))
                (except_Exception (ret [])) ;;
            if truthy_list parsed
            then ret (Some parsed)
            else
              (if (attempt <? MAX_RETRIES)%Z
               then sleep (parse_backoff attempt)
               else ret tt) ;;;
              retry_loop fuel' attempt (Some parsed)
        end
    end
  else ret parsed_locations.

End Loop.

Definition convert_idealist_to_geo (country : string) (limit : option Z)
    (model : option string) : M Empty_set :=
  search_dict <-
    try_except (search country limit)
      (fun e =>
         if isinstance_HTTPException e then Some (raise e)
         else except_Exception (return_ []) e) ;;
  links_list <- lift (links_of search_dict) ;;
  let links_json := json_dumps links_list in
  let prompt := system_prompt links_json in
  MAX_RETRIES <- lift (int (default "3" (environ_get "GEMINI_MAX_RETRIES"))) ;;
  let STRONG_MODEL := environ_get "GEMINI_STRONG_MODEL" in
  let FAST_MODEL := environ_get "GEMINI_FAST_MODEL" in
  cg <- try_except import_call_gemini_module (except_Exception (return_ [])) ;;
  if negb (callable (getattr cg "generate_response")) then return_ [] else
  import_parser_module ;;;
  parsed_locations <-
    retry_loop model STRONG_MODEL FAST_MODEL MAX_RETRIES prompt
               (Z.to_nat MAX_RETRIES) 0 None ;;
  match parsed_locations with
  | None => raise upstream_unparsable
  | Some parsed =>
      final_locations <-
        try_except (add_links parsed links_list)
          (except_Exception (ret (if truthy_list parsed then parsed else []))) ;;
      return_ final_locations
  end.

(** One request: the handler run from the empty trace. *)
Definition request (country : string) (limit : option Z) (model : option string)
  : completion Empty_set :=
  convert_idealist_to_geo country limit model [].

End Handler.

(** ** Reading traces and completions *)

Definition trace_of {A : Type} (c : completion A) : trace :=
  match c with
  | Normal _ tr | Return _ tr | Raise _ tr => tr
  | OutOfFuel => []
  end.

(** The [model=] keywords of the completion-client calls, in call order. *)
Fixpoint generate_models (tr : trace) : list (option string) :=
  match tr with
  | [] => []
  | Generate _ _ m _ :: tr' => m :: generate_models tr'
  | _ :: tr' => generate_models tr'
  end.

(** A parser call that answered with a non-empty list. *)
Definition successful_parse (ev : event) : bool :=
  match ev with
  | Parse _ (inr (Some (_ :: _))) => true
  | _ => false
  end.

Definition no_success (tr : trace) : Prop :=
  Forall (fun ev => successful_parse ev = false) tr.

(** Events of the part of the handler that precedes the retry loop. *)
Definition is_setup (ev : event) : bool :=
  match ev with
  | Search _ _ _ | Import _ _ => true
  | _ => false
  end.

(** What the handler makes of a parser answer: a raised [Exception] and
    [None] both become the empty list; an exception outside [Exception]
    is not caught ([None] here). *)
Definition absorbed (r : result (option (list Location))) : option (list Location) :=
  match r with
  | inl e => if isinstance_Exception e then Some [] else None
  | inr None => Some []
  | inr (Some l) => Some l
  end.

(** An event after which the loop goes round again when retries remain:
    a call of the completion client that raised an [Exception], or a
    parser call whose answer is taken as the empty list. *)
Definition retryable (ev : event) : bool :=
  match ev with
  | Generate _ _ _ (inl e) => isinstance_Exception e
  | Parse _ r =>
      match absorbed r with
      | Some [] => true
      | _ => false
      end
  | _ => false
  end.

(** ** The retry loop as a relation

    [loop_run a p tr c]: entered with [attempt = a],
    [parsed_locations = p] and trace [tr], the [while] loop completes
    with [c].  One constructor per way through the loop body. *)
Section LoopRelation.

Variable w : World.
Variables (model STRONG_MODEL FAST_MODEL : option string).
Variable (MAX_RETRIES : Z).
Variable (prompt : string).

Definition keyword (a : Z) : option string :=
  model_keyword model STRONG_MODEL FAST_MODEL a.

Definition gen_answer (tr : trace) (a : Z) : result gen_value :=
  generate_response w (count is_generate tr) prompt "" (keyword a).

Definition gen_event (tr : trace) (a : Z) : event :=
  Generate prompt "" (keyword a) (gen_answer tr a).

Definition parse_answer (tr : trace) (text : string)
  : result (option (list Location)) :=
  parse_gemini_latlon_list w (count is_parse tr) text.

Definition parse_event (tr : trace) (text : string) : event :=
  Parse text (parse_answer tr text).

Definition pause_after_empty (a : Z) : trace :=
  if (a <? MAX_RETRIES)%Z then [Sleep (parse_backoff a)] else [].

Inductive loop_run :
  Z -> option (list Location) -> trace ->
  completion (option (list Location)) -> Prop :=
| run_exit a p tr :
    (a <? MAX_RETRIES)%Z = false ->
    loop_run a p tr (Normal p tr)
| run_call_uncaught a p tr e :
    (a <? MAX_RETRIES)%Z = true ->
    gen_answer tr (a + 1) = inl e ->
    isinstance_Exception e = false ->
    loop_run a p tr (Raise e (tr ++ [gen_event tr (a + 1)]))
| run_call_retry a p tr e c :
    (a <? MAX_RETRIES)%Z = true ->
    gen_answer tr (a + 1) = inl e ->
    isinstance_Exception e = true ->
    (a + 1 <? MAX_RETRIES)%Z = true ->
    loop_run (a + 1) p
      (tr ++ [gen_event tr (a + 1); Sleep (transport_backoff (a + 1))]) c ->
    loop_run a p tr c
| run_call_exhausted a p tr e :
    (a <? MAX_RETRIES)%Z = true ->
    gen_answer tr (a + 1) = inl e ->
    isinstance_Exception e = true ->
    (a + 1 <? MAX_RETRIES)%Z = false ->
    loop_run a p tr (Raise upstream_failed (tr ++ [gen_event tr (a + 1)]))
| run_parse_uncaught a p tr g e :
    (a <? MAX_RETRIES)%Z = true ->
    gen_answer tr (a + 1) = inr g ->
    parse_answer tr (str_of g) = inl e ->
    isinstance_Exception e = false ->
    loop_run a p tr
      (Raise e (tr ++ [gen_event tr (a + 1); parse_event tr (str_of g)]))
| run_parse_break a p tr g x l :
    (a <? MAX_RETRIES)%Z = true ->
    gen_answer tr (a + 1) = inr g ->
    parse_answer tr (str_of g) = inr (Some (x :: l)) ->
    loop_run a p tr
      (Normal (Some (x :: l))
         (tr ++ [gen_event tr (a + 1); parse_event tr (str_of g)]))
| run_parse_empty a p tr g c :
    (a <? MAX_RETRIES)%Z = true ->
    gen_answer tr (a + 1) = inr g ->
    absorbed (parse_answer tr (str_of g)) = Some [] ->
    loop_run (a + 1) (Some [])
      (tr ++ [gen_event tr (a + 1); parse_event tr (str_of g)]
          ++ pause_after_empty (a + 1)) c ->
    loop_run a p tr c.

End LoopRelation.

(** The statements after the loop, applied to the loop's completion. *)
Definition finish (w : World) (links_list : list Link)
    (c : completion (option (list Location))) : completion Empty_set :=
  match c with
  | Normal None tr => Raise upstream_unparsable tr
  | Normal (Some parsed) tr =>
      let r := add_links_to_locations w parsed links_list in
      let tr' := tr ++ [AddLinks parsed links_list r] in
      match r with
      | inr final_locations => Return final_locations tr'
      | inl e =>
          if isinstance_Exception e
          then Return (if truthy_list parsed then parsed else []) tr'
          else Raise e tr'
      end
  | Return v tr => Return v tr
  | Raise e tr => Raise e tr
  | OutOfFuel => OutOfFuel
  end.

(** The conditions under which a request gets as far as the retry loop,
    with the values the loop then works on. *)
Record reaches_loop (w : World) (country : string) (limit : option Z)
    (sd : search_dict) (links_list : list Link) (max_retries : Z)
    (cg parser_mod : module) : Prop := {
  search_ok : search_volunteer_links w country limit = inr sd;
  links_ok : links_of sd = inr links_list;
  retries_ok : int (default "3" (environ w !! "GEMINI_MAX_RETRIES")) = inr max_retries;
  client_ok : import_module w "gemini.call_gemini" = inr cg;
  generate_ok : callable (getattr cg "generate_response") = true;
  parser_ok : import_module w "gemini.parse_gemini_latlon_list" = inr parser_mod;
  parse_fn_ok : callable (getattr parser_mod "parse_gemini_latlon_list") = true
}.

Definition setup_trace (country : string) (limit : option Z) (sd : search_dict)
    (cg parser_mod : module) : trace :=
  [Search country limit (inr sd);
   Import "gemini.call_gemini" (inr cg);
   Import "gemini.parse_gemini_latlon_list" (inr parser_mod)].

(** ** Reference behaviour used in the statements *)

(** A model name counts as given when it is present and not empty. *)
Definition supplied (o : option string) : option string :=
  match o with
  | Some (String c m) => Some (String c m)
  | _ => None
  end.

(** Model selection as the specification words it: the caller's model on
    every attempt when given; otherwise the fast model on attempt 1 and,
    from attempt 2 on, the strong model when configured, else the fast
    model; no model when nothing applies. *)
Definition selected_model (explicitModel fastModel strongModel : option string)
    (i : nat) : option string :=
  match supplied explicitModel with
  | Some m => Some m
  | None =>
      if (i =? 1)%nat then supplied fastModel
      else match supplied strongModel with
           | Some m => Some m
           | None => supplied fastModel
           end
  end.

(** Attempt [i] (counted from 1) when the completion client fails: the
    call, then the back-off unless this was the last attempt. *)
Definition failed_attempt (w : World) (model STRONG_MODEL FAST_MODEL : option string)
    (MAX_RETRIES : Z) (prompt : string) (i : nat) : trace :=
  let a := Z.of_nat i in
  let m := keyword model STRONG_MODEL FAST_MODEL a in
  Generate prompt "" m (generate_response w (i - 1) prompt "" m)
  :: (if (a <? MAX_RETRIES)%Z then [Sleep (transport_backoff a)] else []).

(** A parser answer with every absorbed failure replaced by the empty
    list it is treated as. *)
Definition lenient_answer (r : result (option (list Location)))
  : result (option (list Location)) :=
  match absorbed r with
  | Some l => inr (Some l)
  | None => r
  end.

Definition lenient_event (ev : event) : event :=
  match ev with
  | Parse text r => Parse text (lenient_answer r)
  | _ => ev
  end.

(** The same world with a parser that returns the empty list where the
    original raises an [Exception] or returns [None]. *)
Definition lenient_world (w : World) : World := {|
  environ := environ w;
  search_volunteer_links := search_volunteer_links w;
  import_module := import_module w;
  generate_response := generate_response w;
  parse_gemini_latlon_list :=
    fun k text => lenient_answer (parse_gemini_latlon_list w k text);
  add_links_to_locations := add_links_to_locations w
|}.

Definition map_trace {A : Type} (f : event -> event) (c : completion A)
  : completion A :=
  match c with
  | Normal a tr => Normal a (map f tr)
  | Return v tr => Return v (map f tr)
  | Raise e tr => Raise e (map f tr)
  | OutOfFuel => OutOfFuel
  end.

(** Two computations agree up to the parser's absorbed failures. *)
Definition sim {A : Type} (m m' : M A) : Prop :=
  forall tr, map_trace lenient_event (m tr) = m' (map lenient_event tr).

(** ** Sample worlds *)

Module Sample.

Definition links : list Link := ["https://a.example/1"; "https://a.example/2"].

Definition found : search_dict :=
  {| sd_links := Some links; sd_idealist_json := IJMissing |}.

Definition call_gemini : module := {[ "generate_response" := Function ]}.
Definition parser_module : module := {[ "parse_gemini_latlon_list" := Function ]}.

Definition modules (name : string) : result module :=
  if String.eqb name "gemini.call_gemini" then inr call_gemini
  else if String.eqb name "gemini.parse_gemini_latlon_list" then inr parser_module
  else inl (ImportError ("No module named " ++ name)).

Definition japan : Location :=
  {[ "latlon" := VList [VNum 35.68; VNum 139.69]; "country" := VStr "japan" ]}.

Definition kenya : Location :=
  {[ "latlon" := VList [VNum (-1.2833); VNum 36.8167]; "country" := VStr "kenya" ]}.

Definition japan_text : string :=
  "[{" ++ dq ++ "latlon" ++ dq ++ ": [35.68, 139.69], " ++
  dq ++ "country" ++ dq ++ ": " ++ dq ++ "japan" ++ dq ++ "}]".

(** A lenient parser: the one record of [japan_text], nothing otherwise. *)
Definition parser (text : string) : result (option (list Location)) :=
  if String.eqb text japan_text then inr (Some [japan]) else inr (Some []).

(** Positional link attachment. *)
Fixpoint attach (parsed : list Location) (ls : list Link) : list Location :=
  match parsed, ls with
  | loc :: parsed', l :: ls' => <["link" := VStr l]> loc :: attach parsed' ls'
  | _, _ => []
  end.

Definition world (retries : string)
    (generate : nat -> result gen_value)
    (parse : nat -> string -> result (option (list Location)))
    (reconcile : list Location -> list Link -> result (list Location)) : World := {|
  environ := {[ "GEMINI_MAX_RETRIES" := retries ]};
  search_volunteer_links := fun _ _ => inr found;
  import_module := modules;
  generate_response := fun k _ _ _ => generate k;
  parse_gemini_latlon_list := parse;
  add_links_to_locations := reconcile
|}.

(** The completion always answers with unparsable text. *)
Definition unparsable : World :=
  world "2" (fun _ => inr (GenStr "ERROR")) (fun _ => parser)
        (fun parsed ls => inr (attach parsed ls)).

(** The completion client is down. *)
Definition client_down : World :=
  world "3" (fun _ => inl (RuntimeError "connection refused")) (fun _ => parser)
        (fun parsed ls => inr (attach parsed ls)).

(** An unparsable first answer, a good second one. *)
Definition second_try : World :=
  world "3" (fun k => inr (GenStr (if (k =? 0)%nat then "ERROR" else japan_text)))
        (fun _ => parser) (fun parsed ls => inr (attach parsed ls)).

(** The parser raises on the first answer; the link helper fails. *)
Definition degraded : World :=
  world "3" (fun _ => inr (GenStr japan_text))
        (fun k text => if (k =? 0)%nat then inl (ValueError "bad json") else parser text)
        (fun _ _ => inl (RuntimeError "length mismatch")).

(** The parser hands back more records than there are links and the
    link helper fails. *)
Definition overfull : World :=
  world "1" (fun _ => inr (GenStr japan_text))
        (fun _ _ => inr (Some [japan; kenya; japan]))
        (fun _ _ => inl (RuntimeError "length mismatch")).

(** The link search fails, with and without an HTTP error. *)
Definition search_down (e : exn) : World := {|
  environ := ∅;
  search_volunteer_links := fun _ _ => inl e;
  import_module := modules;
  generate_response := fun _ _ _ _ => inr (GenStr japan_text);
  parse_gemini_latlon_list := fun _ => parser;
  add_links_to_locations := fun parsed ls => inr (attach parsed ls)
|}.

(** The completion client's module cannot be imported. *)
Definition no_client (failure : result module) : World := {|
  environ := ∅;
  search_volunteer_links := fun _ _ => inr found;
  import_module := fun name =>
    if String.eqb name "gemini.call_gemini" then failure else modules name;
  generate_response := fun _ _ _ _ => inr (GenStr japan_text);
  parse_gemini_latlon_list := fun _ => parser;
  add_links_to_locations := fun parsed ls => inr (attach parsed ls)
|}.

(** Both models are configured; the first answer is unparsable. *)
Definition escalating : World := {|
  environ := {[ "GEMINI_FAST_MODEL" := "gemini-2.5-flash";
                "GEMINI_STRONG_MODEL" := "gemini-2.5-pro" ]};
  search_volunteer_links := fun _ _ => inr found;
  import_module := modules;
  generate_response := fun k _ _ _ =>
    inr (GenStr (if (k =? 0)%nat then "ERROR" else japan_text));
  parse_gemini_latlon_list := fun _ => parser;
  add_links_to_locations := fun parsed ls => inr (attach parsed ls)
|}.

(** No retries are configured. *)
Definition no_retries : World :=
  world "0" (fun _ => inr (GenStr japan_text)) (fun _ => parser)
        (fun parsed ls => inr (attach parsed ls)).

End Sample.

(** ** The application module ([main.py]): allowed CORS origins *)

Module Main.

(** [s.split(sep)] for a one-character separator: the pieces between the
    occurrences of [sep]; the empty string gives one empty piece. *)
Fixpoint split (sep : ascii) (s : list ascii) : list (list ascii) :=
  match s with
  | [] => [[]]
  | c :: s' =>
      if Ascii.eqb c sep then [] :: split sep s'
      else match split sep s' with
           | piece :: pieces => (c :: piece) :: pieces
           | [] => [[c]]
           end
  end.

Definition str_split (sep : ascii) (s : string) : list string :=
  map string_of_list_ascii (split sep (list_ascii_of_string s)).

(** [s.strip()]. *)
Definition str_strip (s : string) : string :=
  string_of_list_ascii (strip (list_ascii_of_string s)).

Definition truthy (s : string) : bool :=
  match s with
  | EmptyString => false
  | String _ _ => true
  end.

Definition default_origin : string := "http://localhost:3000".

(** [[o.strip() for o in _frontend_origins.split(",") if o.strip()]]. *)
Definition origins (environ : gmap string string) : list string :=
  let _frontend_origins := default default_origin (environ !! "FRONTEND_ORIGINS") in
  map str_strip
    (List.filter (fun o => truthy (str_strip o)) (str_split "," _frontend_origins)).

(** [allow_origins=origins or ["http://localhost:3000"]]. *)
Definition allow_origins (environ : gmap string string) : list string :=
  match origins environ with
  | [] => [default_origin]
  | o :: os => o :: os
  end.

(** An origin as the middleware wants it: not empty, without surrounding
    white space, without a comma. *)
Definition clean (o : string) : Prop :=
  o <> "" /\ str_strip o = o /\ ~ In ","%char (list_ascii_of_string o).

End Main.

(** ** Shapes of traces *)

(** The durations slept, in order. *)
Fixpoint sleeps (tr : trace) : list Q :=
  match tr with
  | [] => []
  | Sleep q :: tr' => q :: sleeps tr'
  | _ :: tr' => sleeps tr'
  end.

(** A back-off of some attempt [i] with [lo < i < hi]. *)
Definition backoff_between (lo hi : Z) (q : Q) : Prop :=
  exists i : Z, (lo < i < hi)%Z /\ (q = transport_backoff i \/ q = parse_backoff i).

(** What an event of the retry loop looks like when the loop is entered
    with [attempt = a]. *)
Definition attempt_event (prompt : string) (MAX_RETRIES a : Z) (ev : event) : Prop :=
  match ev with
  | Generate sp p m _ => sp = prompt /\ p = "" /\ m <> Some ""
  | Parse _ _ => True
  | Sleep q => backoff_between a MAX_RETRIES q
  | _ => False
  end.

(** Every parser call comes right after a call of the completion client
    that returned, and is given the text of that answer. *)
Definition fed_by_client (tr : trace) : Prop :=
  forall pre text r post,
    tr = pre ++ Parse text r :: post ->
    exists pre' sp p m g,
      pre = pre' ++ [Generate sp p m (inr g)] /\ text = str_of g.

(** Attempt [i] (counted from 1) when the client answers and the answer
    parses to nothing: the call, the parser call, then the shorter
    back-off unless this was the last attempt. *)
Definition empty_attempt (w : World) (model STRONG_MODEL FAST_MODEL : option string)
    (MAX_RETRIES : Z) (prompt : string) (i : nat) : trace :=
  let a := Z.of_nat i in
  let m := keyword model STRONG_MODEL FAST_MODEL a in
  let r := generate_response w (i - 1) prompt "" m in
  Generate prompt "" m r
  :: match r with
     | inr g => [Parse (str_of g) (parse_gemini_latlon_list w (i - 1) (str_of g))]
     | inl _ => []
     end
  ++ (if (a <? MAX_RETRIES)%Z then [Sleep (parse_backoff a)] else []).

(** More sample worlds. *)
Module Sample2.

(** The search finds nothing. *)
Definition nothing_found : search_dict :=
  {| sd_links := Some []; sd_idealist_json := IJMissing |}.

Definition no_links : World := {|
  environ := {[ "GEMINI_MAX_RETRIES" := "1" ]};
  search_volunteer_links := fun _ _ => inr nothing_found;
  import_module := Sample.modules;
  generate_response := fun _ _ _ _ => inr (GenStr "[]");
  parse_gemini_latlon_list := fun _ => Sample.parser;
  add_links_to_locations := fun parsed ls => inr (Sample.attach parsed ls)
|}.

(** The search result carries [None] under [idealist_json]. *)
Definition null_idealist : World := {|
  environ := ∅;
  search_volunteer_links := fun _ _ =>
    inr {| sd_links := None; sd_idealist_json := IJNone |};
  import_module := Sample.modules;
  generate_response := fun _ _ _ _ => inr (GenStr Sample.japan_text);
  parse_gemini_latlon_list := fun _ => Sample.parser;
  add_links_to_locations := fun parsed ls => inr (Sample.attach parsed ls)
|}.

(** The retry setting is not a number. *)
Definition bad_retries : World :=
  Sample.world "three" (fun _ => inr (GenStr Sample.japan_text))
    (fun _ => Sample.parser) (fun parsed ls => inr (Sample.attach parsed ls)).

(** The parser's module is broken in one of two ways. *)
Definition no_parser (failure : result module) : World := {|
  environ := ∅;
  search_volunteer_links := fun _ _ => inr Sample.found;
  import_module := fun name =>
    if String.eqb name "gemini.parse_gemini_latlon_list" then failure
    else Sample.modules name;
  generate_response := fun _ _ _ _ => inr (GenStr Sample.japan_text);
  parse_gemini_latlon_list := fun _ => Sample.parser;
  add_links_to_locations := fun parsed ls => inr (Sample.attach parsed ls)
|}.

(** The client fails twice, then answers with unparsable text. *)
Definition flaky : World :=
  Sample.world "3"
    (fun k => if (k <? 2)%nat then inl (RuntimeError "timeout")
              else inr (GenStr "ERROR"))
    (fun _ => Sample.parser) (fun parsed ls => inr (Sample.attach parsed ls)).

(** Two retries; the client answers, the parser fails in one way and then
    in another. *)
Definition mute : World :=
  Sample.world "2" (fun _ => inr (GenStr "ERROR"))
    (fun k _ => if (k =? 0)%nat then inl (ValueError "bad json") else inr None)
    (fun parsed ls => inr (Sample.attach parsed ls)).

End Sample2.

(** * Properties *)

(** ** Counting and traces *)

Lemma count_app (p : event -> bool) (tr1 tr2 : trace) :
  count p (tr1 ++ tr2) = (count p tr1 + count p tr2)%nat.
Proof.
  induction tr1 as [|ev tr1 IH]; simpl; [reflexivity|].
  rewrite IH. lia.
Qed.

Lemma generate_models_app (tr1 tr2 : trace) :
  generate_models (tr1 ++ tr2) = generate_models tr1 ++ generate_models tr2.
Proof.
  induction tr1 as [|ev tr1 IH]; simpl; [reflexivity|].
  destruct ev; simpl; rewrite ?IH; reflexivity.
Qed.

Lemma count_generate_models (tr : trace) :
  count is_generate tr = length (generate_models tr).
Proof.
  induction tr as [|ev tr IH]; simpl; [reflexivity|].
  destruct ev; simpl; rewrite IH; reflexivity.
Qed.

(** ** The loop function runs as the relation says *)

Section LoopFacts.

Variable w : World.
Variables (model STRONG_MODEL FAST_MODEL : option string).
Variable (MAX_RETRIES : Z).
Variable (prompt : string).

Let loop := retry_loop w model STRONG_MODEL FAST_MODEL MAX_RETRIES prompt.
Let run := loop_run w model STRONG_MODEL FAST_MODEL MAX_RETRIES prompt.

Lemma retry_loop_run (fuel : nat) :
  forall a p tr,
    (Z.to_nat (MAX_RETRIES - a) <= fuel)%nat ->
    run a p tr (loop fuel a p tr).
Proof.
  subst loop run.
  induction fuel as [|fuel IH]; intros a p tr Hfuel; simpl;
    destruct (a <? MAX_RETRIES)%Z eqn:Ha;
    try (apply run_exit; assumption).
  - apply Z.ltb_lt in Ha. lia.
  - assert (Hnext : (Z.to_nat (MAX_RETRIES - (a + 1)) <= fuel)%nat)
      by (apply Z.ltb_lt in Ha; lia).
    unfold bind at 1. unfold try_except at 1. unfold bind at 1.
    unfold generate_fn, external.
    fold (keyword model STRONG_MODEL FAST_MODEL (a + 1)).
    fold (gen_answer w model STRONG_MODEL FAST_MODEL prompt tr (a + 1)).
    fold (gen_event w model STRONG_MODEL FAST_MODEL prompt tr (a + 1)).
    destruct (gen_answer w model STRONG_MODEL FAST_MODEL prompt tr (a + 1))
      as [e|g] eqn:Hg.
    + unfold except_Exception.
      destruct (isinstance_Exception e) eqn:He;
        [destruct (a + 1 <? MAX_RETRIES)%Z eqn:Hn|].
      * unfold bind, sleep, ret. rewrite <- app_assoc. simpl app.
        eapply run_call_retry; eauto.
      * unfold raise. eapply run_call_exhausted; eauto.
      * eapply run_call_uncaught; eauto.
    + unfold ret at 1. unfold bind at 1. unfold try_except at 1.
      unfold bind at 1. unfold parse_fn, external.
      rewrite count_app. simpl count. rewrite Nat.add_0_r.
      fold (parse_answer w tr (str_of g)).
      fold (parse_event w tr (str_of g)).
      rewrite <- !app_assoc. simpl app.
      assert (Hempty : forall tr0,
        ((if (a + 1 <? MAX_RETRIES)%Z
          then sleep (parse_backoff (a + 1)) else ret tt) ;;;
         retry_loop w model STRONG_MODEL FAST_MODEL MAX_RETRIES prompt fuel
           (a + 1) (Some [])) tr0
        = retry_loop w model STRONG_MODEL FAST_MODEL MAX_RETRIES prompt fuel
            (a + 1) (Some []) (tr0 ++ pause_after_empty MAX_RETRIES (a + 1))).
      { intros tr0. unfold bind, pause_after_empty, sleep, ret.
        destruct (a + 1 <? MAX_RETRIES)%Z; rewrite ?app_nil_r; reflexivity. }
      destruct (parse_answer w tr (str_of g)) as [e|[[|x l]|]] eqn:Hp.
      * unfold except_Exception.
        destruct (isinstance_Exception e) eqn:He.
        -- unfold ret at 1. simpl truthy_list. cbv iota.
           rewrite Hempty, <- app_assoc.
           eapply run_parse_empty; eauto.
           rewrite Hp. simpl. rewrite He. reflexivity.
        -- eapply run_parse_uncaught; eauto.
      * unfold ret at 1. simpl truthy_list. cbv iota.
        rewrite Hempty, <- app_assoc.
        eapply run_parse_empty; eauto.
        rewrite Hp. reflexivity.
      * unfold ret. simpl truthy_list. cbv iota.
        eapply run_parse_break; eauto.
      * unfold ret at 1. simpl truthy_list. cbv iota.
        rewrite Hempty, <- app_assoc.
        eapply run_parse_empty; eauto.
        rewrite Hp. reflexivity.
Qed.

(** The relation never leaves the loop unfinished. *)
Lemma loop_run_finishes a p tr c : run a p tr c -> c <> OutOfFuel.
Proof. subst run. induction 1; congruence. Qed.



End LoopFacts.

(** ** The handler around the loop *)

(** Expose the handler's statements up to the loop. *)
Ltac unfold_handler :=
  cbv delta [request convert_idealist_to_geo bind try_except search external
    lift environ_get import_call_gemini_module import_parser_module
    importlib_import_module except_Exception return_ raise ret];
  cbv beta.

(** Follow one branch: rewrite with a collaborator's answer and reduce. *)
Ltac follow H := rewrite H; cbv beta iota zeta delta [negb].

Section RequestFacts.

Variable w : World.
Variables (country : string) (limit : option Z) (model : option string).

Let STRONG_MODEL := environ w !! "GEMINI_STRONG_MODEL".
Let FAST_MODEL := environ w !! "GEMINI_FAST_MODEL".

Lemma request_ready sd links_list n cg parser_mod :
  reaches_loop w country limit sd links_list n cg parser_mod ->
  request w country limit model =
  finish w links_list
    (retry_loop w model STRONG_MODEL FAST_MODEL n
       (system_prompt (json_dumps links_list)) (Z.to_nat n) 0 None
       (setup_trace country limit sd cg parser_mod)).
Proof.
  intros [Hs Hl Hn Hc Hg Hp Hf].
  unfold_handler.
  follow Hs. follow Hl. follow Hn. follow Hc.
  follow Hg. follow Hp.
  follow Hf. simpl app.
  unfold setup_trace, finish, add_links, external.
  subst STRONG_MODEL FAST_MODEL.
  destruct (retry_loop _ _ _ _ _ _ _ _ _ _) as [[parsed|] tr|v tr|e tr|];
    try reflexivity.
  destruct (add_links_to_locations w parsed links_list) as [e|final];
    [destruct (isinstance_Exception e)|]; reflexivity.
Qed.

(** Either the request gets as far as the loop, or it completes with a
    trace of setup events only. *)
Lemma request_cases :
  (exists sd links_list n cg parser_mod,
      reaches_loop w country limit sd links_list n cg parser_mod)
  \/ (exists tr,
        Forall (fun ev => is_setup ev = true) tr
        /\ (request w country limit model = Return [] tr
            \/ exists e, request w country limit model = Raise e tr)).
Proof.
  destruct (search_volunteer_links w country limit) as [e|sd] eqn:Hs.
  { right. exists [Search country limit (inl e)]. split; [repeat constructor|].
    unfold_handler. follow Hs.
    destruct (isinstance_HTTPException e); [right; eexists; reflexivity|].
    destruct (isinstance_Exception e); [left|right; eexists]; reflexivity. }
  destruct (links_of sd) as [e|links_list] eqn:Hl.
  { right. exists [Search country limit (inr sd)]. split; [repeat constructor|].
    right. exists e. unfold_handler. follow Hs.
    follow Hl. reflexivity. }
  destruct (int (default "3" (environ w !! "GEMINI_MAX_RETRIES")))
    as [e|n] eqn:Hn.
  { right. exists [Search country limit (inr sd)]. split; [repeat constructor|].
    right. exists e. unfold_handler. follow Hs.
    follow Hl. follow Hn. reflexivity. }
  destruct (import_module w "gemini.call_gemini") as [e|cg] eqn:Hc.
  { right. exists [Search country limit (inr sd);
                   Import "gemini.call_gemini" (inl e)].
    split; [repeat constructor|].
    unfold_handler. follow Hs. follow Hl. follow Hn. follow Hc.
    destruct e; simpl; first [left; reflexivity | right; eexists; reflexivity]. }
  destruct (callable (getattr cg "generate_response")) eqn:Hg.
  2:{ right. exists [Search country limit (inr sd);
                     Import "gemini.call_gemini" (inr cg)].
      split; [repeat constructor|]. left.
      unfold_handler. follow Hs. follow Hl. follow Hn. follow Hc.
      follow Hg. reflexivity. }
  destruct (import_module w "gemini.parse_gemini_latlon_list")
    as [e|parser_mod] eqn:Hp.
  { right. exists [Search country limit (inr sd);
                   Import "gemini.call_gemini" (inr cg);
                   Import "gemini.parse_gemini_latlon_list" (inl e)].
    split; [repeat constructor|]. right. exists e.
    unfold_handler. follow Hs. follow Hl. follow Hn. follow Hc.
    follow Hg. follow Hp.
    destruct (isinstance_Exception e); reflexivity. }
  destruct (callable (getattr parser_mod "parse_gemini_latlon_list")) eqn:Hf.
  2:{ right. exists (setup_trace country limit sd cg parser_mod).
      split; [repeat constructor|]. right. eexists.
      unfold_handler. follow Hs. follow Hl. follow Hn. follow Hc.
      follow Hg. follow Hp.
      follow Hf. reflexivity. }
  left. exists sd, links_list, n, cg, parser_mod. constructor; assumption.
Qed.

End RequestFacts.

(** ** What the loop relation implies *)

Section LoopProperties.

Variable w : World.
Variables (model STRONG_MODEL FAST_MODEL : option string).
Variable (MAX_RETRIES : Z).
Variable (prompt : string).

Let run := loop_run w model STRONG_MODEL FAST_MODEL MAX_RETRIES prompt.
Let failed := failed_attempt w model STRONG_MODEL FAST_MODEL MAX_RETRIES prompt.

(** When every call of the completion client raises an [Exception], the
    loop makes one failed attempt per remaining retry and ends with the
    upstream-failure error. *)
Lemma run_client_always_failing a p tr c :
  run a p tr c ->
  (forall k sp pr m, exists e,
      generate_response w k sp pr m = inl e /\ isinstance_Exception e = true) ->
  forall j : nat,
    a = Z.of_nat j -> count is_generate tr = j -> (a < MAX_RETRIES)%Z ->
    c = Raise upstream_failed
          (tr ++ flat_map failed (seq (S j) (Z.to_nat (MAX_RETRIES - a)))).
Proof.
  subst run failed. intros Hrun Hall.
  induction Hrun as
    [a p tr Ha | a p tr e Ha Hg He | a p tr e c Ha Hg He Hn Hrun IH
    | a p tr e Ha Hg He Hn | a p tr g e Ha Hg | a p tr g x l Ha Hg
    | a p tr g c Ha Hg];
    intros j Hj Hcount Hlt;
    try (unfold gen_answer in Hg;
         destruct (Hall (count is_generate tr) prompt ""
                     (keyword model STRONG_MODEL FAST_MODEL (a + 1)))
           as (e' & Hg' & He'); congruence).
  - apply Z.ltb_ge in Ha. lia.
  - apply Z.ltb_lt in Hn.
    rewrite (IH (S j)); [| lia | | lia].
    + replace (Z.to_nat (MAX_RETRIES - a))
        with (S (Z.to_nat (MAX_RETRIES - (a + 1)))) by lia.
      rewrite <- app_assoc. simpl seq. simpl flat_map.
      do 2 f_equal. unfold failed_attempt at 2.
      replace (Z.of_nat (S j)) with (a + 1)%Z by lia.
      apply Z.ltb_lt in Hn. rewrite Hn.
      unfold gen_event, gen_answer. simpl Nat.sub. rewrite Nat.sub_0_r.
      rewrite Hcount. reflexivity.
    + rewrite count_app. simpl. lia.
  - apply Z.ltb_ge in Hn.
    replace (Z.to_nat (MAX_RETRIES - a)) with 1%nat by lia.
    simpl seq. simpl flat_map. rewrite app_nil_r.
    do 2 f_equal. unfold failed_attempt.
    replace (Z.of_nat (S j)) with (a + 1)%Z by lia.
    apply Z.ltb_ge in Hn. rewrite Hn.
    unfold gen_event, gen_answer. simpl Nat.sub. rewrite Nat.sub_0_r.
    rewrite Hcount. reflexivity.
Qed.

(** When every attempt gets an answer that parses to nothing, the loop
    uses up its retries and is left with the empty list, not with
    [None]. *)
Lemma run_always_empty a p tr c :
  run a p tr c ->
  (forall k sp pr m, exists g, generate_response w k sp pr m = inr g) ->
  (forall k text, absorbed (parse_gemini_latlon_list w k text) = Some []) ->
  exists ext,
    c = Normal (if (a <? MAX_RETRIES)%Z then Some [] else p) (tr ++ ext)
    /\ count is_generate ext = Z.to_nat (MAX_RETRIES - a)
    /\ count is_parse ext = Z.to_nat (MAX_RETRIES - a).
Proof.
  subst run. intros Hrun Hgen Hparse.
  induction Hrun as
    [a p tr Ha | a p tr e Ha Hg He | a p tr e c Ha Hg He Hn Hrun IH
    | a p tr e Ha Hg He Hn | a p tr g e Ha Hg Hp He | a p tr g x l Ha Hg Hp
    | a p tr g c Ha Hg Hp Hrun IH];
    try (unfold gen_answer in Hg;
         destruct (Hgen (count is_generate tr) prompt ""
                     (keyword model STRONG_MODEL FAST_MODEL (a + 1)))
           as (g' & Hg'); congruence);
    try (unfold parse_answer in Hp;
         specialize (Hparse (count is_parse tr) (str_of g));
         rewrite Hp in Hparse; simpl in Hparse;
         try rewrite He in Hparse; congruence).
  - exists []. rewrite Ha, app_nil_r.
    apply Z.ltb_ge in Ha. repeat split; simpl; lia.
  - destruct IH as (ext & -> & Hcg & Hcp).
    eexists. rewrite <- !app_assoc. rewrite Ha. split.
    + f_equal. destruct (a + 1 <? MAX_RETRIES)%Z; reflexivity.
    + apply Z.ltb_lt in Ha.
      rewrite !count_app, Hcg, Hcp. unfold pause_after_empty.
      destruct (a + 1 <? MAX_RETRIES)%Z; simpl; lia.
Qed.

Lemma keyword_shift a n :
  keyword model STRONG_MODEL FAST_MODEL (a + 1)
  :: map (fun i : nat => keyword model STRONG_MODEL FAST_MODEL (a + 1 + Z.of_nat i))
         (seq 1 n)
  = map (fun i : nat => keyword model STRONG_MODEL FAST_MODEL (a + Z.of_nat i))
        (seq 1 (S n)).
Proof.
  simpl. f_equal. rewrite <- (seq_shift n 1), map_map.
  apply map_ext. intros i. f_equal. lia.
Qed.

(** The [k]-th call made by the loop carries the keyword of attempt
    [a + k]. *)
Lemma run_models a p tr c :
  run a p tr c ->
  exists ext,
    trace_of c = tr ++ ext
    /\ generate_models ext
       = map (fun i : nat => keyword model STRONG_MODEL FAST_MODEL (a + Z.of_nat i))
             (seq 1 (length (generate_models ext))).
Proof.
  subst run.
  induction 1 as
    [a p tr Ha | a p tr e Ha Hg He | a p tr e c Ha Hg He Hn Hrun IH
    | a p tr e Ha Hg He Hn | a p tr g e Ha Hg Hp He | a p tr g x l Ha Hg Hp
    | a p tr g c Ha Hg Hp Hrun IH];
    try (eexists; split; [reflexivity|]; reflexivity).
  - exists []. rewrite app_nil_r. split; reflexivity.
  - destruct IH as (ext & Htr & Hm).
    exists ([gen_event w model STRONG_MODEL FAST_MODEL prompt tr (a + 1);
             Sleep (transport_backoff (a + 1))] ++ ext).
    rewrite Htr, <- app_assoc. split; [reflexivity|].
    rewrite generate_models_app. cbn [generate_models gen_event app length].
    rewrite <- keyword_shift. f_equal. exact Hm.
  - destruct IH as (ext & Htr & Hm).
    exists ([gen_event w model STRONG_MODEL FAST_MODEL prompt tr (a + 1);
             parse_event w tr (str_of g)]
            ++ pause_after_empty MAX_RETRIES (a + 1) ++ ext).
    rewrite Htr, <- !app_assoc. split; [reflexivity|].
    assert (Hpause : generate_models (pause_after_empty MAX_RETRIES (a + 1) ++ ext)
                     = generate_models ext).
    { unfold pause_after_empty. destruct (a + 1 <? MAX_RETRIES)%Z; reflexivity. }
    rewrite generate_models_app.
    cbn [generate_models gen_event parse_event app length].
    rewrite Hpause, <- keyword_shift. f_equal. exact Hm.
Qed.

(** The loop calls the completion client at most once per remaining
    retry. *)
Lemma run_calls_bounded a p tr c :
  run a p tr c ->
  exists ext,
    trace_of c = tr ++ ext
    /\ (count is_generate ext <= Z.to_nat (MAX_RETRIES - a))%nat.
Proof.
  subst run.
  induction 1 as
    [a p tr Ha | a p tr e Ha Hg He | a p tr e c Ha Hg He Hn Hrun IH
    | a p tr e Ha Hg He Hn | a p tr g e Ha Hg Hp He | a p tr g x l Ha Hg Hp
    | a p tr g c Ha Hg Hp Hrun IH];
    try apply Z.ltb_lt in Ha;
    try (eexists; split; [reflexivity|]; simpl; lia).
  - exists []. rewrite app_nil_r. split; [reflexivity|]. simpl. lia.
  - destruct IH as (ext & -> & Hle). eexists. rewrite <- app_assoc.
    split; [reflexivity|]. rewrite count_app. simpl. lia.
  - destruct IH as (ext & -> & Hle). eexists. rewrite <- !app_assoc.
    split; [reflexivity|]. rewrite !count_app.
    unfold pause_after_empty.
    destruct (a + 1 <? MAX_RETRIES)%Z; simpl; lia.
Qed.

Lemma no_success_app tr1 tr2 :
  no_success tr1 -> no_success tr2 -> no_success (tr1 ++ tr2).
Proof. apply Forall_app_2. Qed.

(** How the loop can end: with its retries used up and no non-empty
    parse on the trace; right after the first non-empty parse; or by an
    exception, again without a non-empty parse. *)
Lemma run_outcome a p tr c :
  run a p tr c ->
  (exists ext p',
      c = Normal p' (tr ++ ext) /\ no_success ext /\ (p' = p \/ p' = Some []))
  \/ (exists ext text recs k,
         c = Normal (Some recs) (tr ++ ext ++ [Parse text (inr (Some recs))])
         /\ no_success ext /\ recs <> []
         /\ parse_gemini_latlon_list w k text = inr (Some recs))
  \/ (exists ext e, c = Raise e (tr ++ ext) /\ no_success ext).
Proof.
  subst run.
  induction 1 as
    [a p tr Ha | a p tr e Ha Hg He | a p tr e c Ha Hg He Hn Hrun IH
    | a p tr e Ha Hg He Hn | a p tr g e Ha Hg Hp He | a p tr g x l Ha Hg Hp
    | a p tr g c Ha Hg Hp Hrun IH].
  - left. exists [], p. rewrite app_nil_r. repeat split; [constructor|now left].
  - right; right. eexists _, _. split; [reflexivity|]. repeat constructor.
  - assert (Hq : no_success
        [gen_event w model STRONG_MODEL FAST_MODEL prompt tr (a + 1);
         Sleep (transport_backoff (a + 1))]) by (repeat constructor).
    destruct IH as [(ext & p' & -> & Hns & Hp')
                   |[(ext & text & recs & k & -> & Hns & Hne & Hk)
                    |(ext & e' & -> & Hns)]].
    + left. eexists _, p'. rewrite <- app_assoc.
      split; [reflexivity|]. split; [apply no_success_app; eassumption|exact Hp'].
    + right; left.
      exists ([gen_event w model STRONG_MODEL FAST_MODEL prompt tr (a + 1);
               Sleep (transport_backoff (a + 1))] ++ ext), text, recs, k.
      rewrite <- !app_assoc. split; [reflexivity|].
      repeat split; try assumption. apply no_success_app; eassumption.
    + right; right. eexists _, e'. rewrite <- app_assoc.
      split; [reflexivity|]. apply no_success_app; eassumption.
  - right; right. eexists _, _. split; [reflexivity|]. repeat constructor.
  - right; right. eexists _, _. split; [reflexivity|].
    unfold parse_event. rewrite Hp. repeat constructor.
  - right; left. exists [gen_event w model STRONG_MODEL FAST_MODEL prompt tr (a + 1)],
      (str_of g), (x :: l), (count is_parse tr).
    unfold parse_event. rewrite Hp. repeat split; try discriminate.
    + repeat constructor.
    + exact Hp.
  - assert (Hq : no_success
        ([gen_event w model STRONG_MODEL FAST_MODEL prompt tr (a + 1);
          parse_event w tr (str_of g)] ++ pause_after_empty MAX_RETRIES (a + 1))).
    { apply no_success_app.
      - unfold parse_event.
        destruct (parse_answer w tr (str_of g)) as [e|[[|x l]|]];
          try discriminate; repeat constructor.
      - unfold pause_after_empty.
        destruct (a + 1 <? MAX_RETRIES)%Z; repeat constructor. }
    rewrite (app_assoc tr) in IH.
    destruct IH as [(ext & p' & -> & Hns & Hp')
                   |[(ext & text & recs & k & -> & Hns & Hne & Hk)
                    |(ext & e' & -> & Hns)]].
    + left.
      exists (([gen_event w model STRONG_MODEL FAST_MODEL prompt tr (a + 1);
                parse_event w tr (str_of g)]
               ++ pause_after_empty MAX_RETRIES (a + 1)) ++ ext), p'.
      split; [rewrite <- !app_assoc; reflexivity|]. split.
      * apply no_success_app; assumption.
      * right. destruct Hp' as [->| ->]; reflexivity.
    + right; left.
      exists (([gen_event w model STRONG_MODEL FAST_MODEL prompt tr (a + 1);
                parse_event w tr (str_of g)]
               ++ pause_after_empty MAX_RETRIES (a + 1)) ++ ext), text, recs, k.
      split; [rewrite <- !app_assoc; reflexivity|].
      repeat split; try assumption.
      apply no_success_app; assumption.
    + right; right.
      exists (([gen_event w model STRONG_MODEL FAST_MODEL prompt tr (a + 1);
                parse_event w tr (str_of g)]
               ++ pause_after_empty MAX_RETRIES (a + 1)) ++ ext), e'.
      split; [rewrite <- !app_assoc; reflexivity|].
      apply no_success_app; assumption.
Qed.

End LoopProperties.

(** ** The request as a whole *)

Section Requests.

Variable w : World.
Variables (country : string) (limit : option Z) (model : option string).

Let STRONG_MODEL := environ w !! "GEMINI_STRONG_MODEL".
Let FAST_MODEL := environ w !! "GEMINI_FAST_MODEL".

Lemma request_loop_run sd links_list n cg parser_mod :
  let setup := setup_trace country limit sd cg parser_mod in
  let prompt := system_prompt (json_dumps links_list) in
  loop_run w model STRONG_MODEL FAST_MODEL n prompt 0 None setup
    (retry_loop w model STRONG_MODEL FAST_MODEL n prompt (Z.to_nat n) 0 None setup).
Proof. intros setup prompt. apply retry_loop_run. lia. Qed.

Lemma trace_of_finish links_list c :
  exists post,
    trace_of (finish w links_list c) = trace_of c ++ post
    /\ (post = []
        \/ exists parsed r,
             c = Normal (Some parsed) (trace_of c)
             /\ post = [AddLinks parsed links_list r]).
Proof.
  destruct c as [[parsed|] tr|v tr|e tr|]; simpl;
    try (exists []; rewrite ?app_nil_r; split; [reflexivity|now left]).
  exists [AddLinks parsed links_list (add_links_to_locations w parsed links_list)].
  split; [|right; eauto].
  destruct (add_links_to_locations w parsed links_list) as [e|final];
    [destruct (isinstance_Exception e)|]; reflexivity.
Qed.

Lemma trace_of_finish_parsed links_list parsed tr :
  trace_of (finish w links_list (Normal (Some parsed) tr))
  = tr ++ [AddLinks parsed links_list
             (add_links_to_locations w parsed links_list)].
Proof.
  simpl.
  destruct (add_links_to_locations w parsed links_list) as [e|final];
    [destruct (isinstance_Exception e)|]; reflexivity.
Qed.

Lemma setup_no_generate (tr : trace) :
  Forall (fun ev => is_setup ev = true) tr ->
  generate_models tr = [] /\ no_success tr.
Proof.
  induction 1 as [|ev tr Hev _ [IHm IHn]]; [split; [reflexivity|constructor]|].
  destruct ev; try discriminate; split; try exact IHm; constructor;
    solve [reflexivity | exact IHn].
Qed.

Lemma count_failed_attempts (MAX : Z) (prompt : string) (s m : nat) :
  count is_generate
    (flat_map (failed_attempt w model STRONG_MODEL FAST_MODEL MAX prompt) (seq s m))
  = m.
Proof.
  revert s. induction m as [|m IH]; intros s; simpl; [reflexivity|].
  rewrite count_app, IH.
  destruct (Z.of_nat s <? MAX)%Z; reflexivity.
Qed.

Lemma keyword_selected (i : nat) :
  keyword model STRONG_MODEL FAST_MODEL (Z.of_nat i)
  = selected_model model FAST_MODEL STRONG_MODEL i.
Proof.
  unfold keyword, model_keyword, model_to_use, selected_model, or_str.
  destruct (Nat.eqb_spec i 1) as [->|Hi].
  - simpl. destruct model as [[|c m]|], FAST_MODEL as [[|c' m']|]; reflexivity.
  - replace (Z.of_nat i =? 1)%Z with false by (symmetry; apply Z.eqb_neq; lia).
    destruct model as [[|c m]|], STRONG_MODEL as [[|c' m']|],
      FAST_MODEL as [[|c'' m'']|]; reflexivity.
Qed.

End Requests.

Section Completion.

Variable w : World.
Variables (country : string) (limit : option Z) (model : option string).

(** X17.  Every request completes, whatever the world and the retry
    setting: it returns a list or raises; the loop never runs out of
    iterations. *)
Lemma request_completes :
  exists tr,
    (exists v, request w country limit model = Return v tr)
    \/ (exists e, request w country limit model = Raise e tr).
Proof.
  destruct (request_cases w country limit model)
    as [(sd & links_list & n & cg & parser_mod & Hready)
       |(tr & _ & [Hret|Hraise])]; [|eauto..].
  rewrite (request_ready w country limit model _ _ _ _ _ Hready).
  pose proof (request_loop_run w country limit model sd links_list n cg parser_mod) as Hrun.
  cbv zeta in Hrun.
  destruct (run_outcome _ _ _ _ _ _ _ _ _ _ Hrun)
    as [(ext & p' & -> & _)
       |[(ext & text & recs & k & -> & _)
        |(ext & e & -> & _)]]; simpl.
  - destruct p' as [parsed|]; [|eauto].
    destruct (add_links_to_locations w parsed links_list) as [e|final];
      [destruct (isinstance_Exception e)|]; eauto.
  - destruct (add_links_to_locations w recs links_list) as [e|final];
      [destruct (isinstance_Exception e)|]; eauto.
  - eauto.
Qed.

(** No request calls the completion client more often than the retry
    setting allows. *)
Lemma client_calls_bounded sd links_list n cg parser_mod :
  reaches_loop w country limit sd links_list n cg parser_mod ->
  (count is_generate (trace_of (request w country limit model)) <= Z.to_nat n)%nat.
Proof.
  intros Hready. rewrite (request_ready w country limit model _ _ _ _ _ Hready).
  pose proof (request_loop_run w country limit model sd links_list n cg parser_mod) as Hrun.
  cbv zeta in Hrun.
  destruct (trace_of_finish w links_list
              (retry_loop w model (environ w !! "GEMINI_STRONG_MODEL")
                 (environ w !! "GEMINI_FAST_MODEL") n
                 (system_prompt (json_dumps links_list)) (Z.to_nat n) 0 None
                 (setup_trace country limit sd cg parser_mod)))
    as (post & -> & Hpost).
  destruct (run_calls_bounded _ _ _ _ _ _ _ _ _ _ Hrun) as (ext & -> & Hle).
  rewrite !count_app. rewrite Z.sub_0_r in Hle.
  assert (count is_generate post = 0%nat)
    by (destruct Hpost as [->|(parsed & r & _ & ->)]; reflexivity).
  simpl count at 1. lia.
Qed.

End Completion.

(** * The claims *)

(** C10.  With a retry count of zero or less, and the search and both
    imports succeeding, the loop body never runs: the request fails with
    the 502 error for an unparsable response, and neither the completion
    client nor the parser has been called. *)
Theorem nonpositive_retries_unparsable
    (w : World) (country : string) (limit : option Z) (model : option string)
    (sd : search_dict) (links_list : list Link) (n : Z) (cg parser_mod : module) :
  reaches_loop w country limit sd links_list n cg parser_mod ->
  (n <= 0)%Z ->
  request w country limit model
  = Raise (HTTPException 502 "Failed to obtain parsable response from Gemini.")
          (setup_trace country limit sd cg parser_mod)
  /\ count is_generate (trace_of (request w country limit model)) = 0%nat
  /\ count is_parse (trace_of (request w country limit model)) = 0%nat.
Proof.
  intros Hready Hn.
  rewrite (request_ready w country limit model _ _ _ _ _ Hready).
  assert (Hloop : forall fuel tr,
    retry_loop w model (environ w !! "GEMINI_STRONG_MODEL")
      (environ w !! "GEMINI_FAST_MODEL") n
      (system_prompt (json_dumps links_list)) fuel 0 None tr = Normal None tr).
  { intros fuel tr.
    destruct fuel; simpl;
      (replace (0 <? n)%Z with false by (symmetry; apply Z.ltb_ge; lia));
      reflexivity. }
  rewrite Hloop. simpl. repeat split.
Qed.

Lemma nonpositive_retries_unparsable_witness :
  request Sample.no_retries "Japan" None None
  = Raise upstream_unparsable
      (setup_trace "Japan" None Sample.found Sample.call_gemini Sample.parser_module).
Proof.
  apply (nonpositive_retries_unparsable Sample.no_retries "Japan" None None
           Sample.found Sample.links 0 Sample.call_gemini Sample.parser_module).
  - constructor; reflexivity.
  - lia.
Defined.

(** C8.  When the link search raises, a caller-facing [HTTPException] is
    re-raised unchanged and any other [Exception] makes the request
    return the empty list; in both cases the search is the only external
    call, so the completion client is never invoked. *)
Theorem search_failure
    (w : World) (country : string) (limit : option Z) (model : option string)
    (e : exn) :
  search_volunteer_links w country limit = inl e ->
  isinstance_Exception e = true ->
  request w country limit model
  = (if isinstance_HTTPException e
     then Raise e [Search country limit (inl e)]
     else Return [] [Search country limit (inl e)])
  /\ count is_generate (trace_of (request w country limit model)) = 0%nat.
Proof.
  intros Hs He.
  assert (Hreq : request w country limit model
    = (if isinstance_HTTPException e
       then Raise e [Search country limit (inl e)]
       else Return [] [Search country limit (inl e)])).
  { unfold_handler. follow Hs.
    destruct (isinstance_HTTPException e); [reflexivity|].
    rewrite He. reflexivity. }
  rewrite Hreq. split; [reflexivity|].
  destruct (isinstance_HTTPException e); reflexivity.
Qed.

Lemma search_failure_witness :
  request (Sample.search_down (HTTPException 429 "Too Many Requests")) "Japan" None None
  = Raise (HTTPException 429 "Too Many Requests")
      [Search "Japan" None (inl (HTTPException 429 "Too Many Requests"))]
  /\ request (Sample.search_down (RuntimeError "timeout")) "Japan" (Some 5) None
     = Return [] [Search "Japan" (Some 5) (inl (RuntimeError "timeout"))].
Proof.
  split.
  - apply (search_failure (Sample.search_down (HTTPException 429 "Too Many Requests"))
             "Japan" None None (HTTPException 429 "Too Many Requests"));
      reflexivity.
  - apply (search_failure (Sample.search_down (RuntimeError "timeout"))
             "Japan" (Some 5) None (RuntimeError "timeout"));
      reflexivity.
Defined.

(** C3.  When every call of the completion client raises, the request
    makes exactly [n = MAX_RETRIES] calls: attempt [i] is the call
    followed, unless [i] is the last attempt, by a sleep of [0.8 * i];
    after the last call the request fails with the 502 error for a
    failed upstream call. *)
Theorem client_always_failing
    (w : World) (country : string) (limit : option Z) (model : option string)
    (sd : search_dict) (links_list : list Link) (n : Z) (cg parser_mod : module) :
  reaches_loop w country limit sd links_list n cg parser_mod ->
  (1 <= n)%Z ->
  (forall k sp pr m, exists e,
      generate_response w k sp pr m = inl e /\ isinstance_Exception e = true) ->
  let attempts :=
    flat_map
      (failed_attempt w model (environ w !! "GEMINI_STRONG_MODEL")
         (environ w !! "GEMINI_FAST_MODEL") n
         (system_prompt (json_dumps links_list)))
      (seq 1 (Z.to_nat n)) in
  request w country limit model
  = Raise (HTTPException 502 "Upstream Gemini call failed repeatedly.")
          (setup_trace country limit sd cg parser_mod ++ attempts)
  /\ count is_generate (trace_of (request w country limit model)) = Z.to_nat n.
Proof.
  intros Hready Hn Hall attempts.
  assert (Hreq : request w country limit model
    = Raise upstream_failed (setup_trace country limit sd cg parser_mod ++ attempts)).
  { rewrite (request_ready w country limit model _ _ _ _ _ Hready).
    pose proof (request_loop_run w country limit model sd links_list n cg parser_mod)
      as Hrun. cbv zeta in Hrun.
    rewrite (run_client_always_failing _ _ _ _ _ _ _ _ _ _ Hrun Hall 0%nat);
      try reflexivity; try lia.
    subst attempts. rewrite Z.sub_0_r. reflexivity. }
  rewrite Hreq. split; [reflexivity|].
  unfold trace_of. rewrite count_app. subst attempts.
  rewrite count_failed_attempts. reflexivity.
Qed.

Lemma client_always_failing_witness :
  request Sample.client_down "Japan" None None
  = Raise upstream_failed
      (setup_trace "Japan" None Sample.found Sample.call_gemini Sample.parser_module
       ++ [Generate (system_prompt (json_dumps Sample.links)) "" None
             (inl (RuntimeError "connection refused"));
           Sleep 0.8;
           Generate (system_prompt (json_dumps Sample.links)) "" None
             (inl (RuntimeError "connection refused"));
           Sleep 1.6;
           Generate (system_prompt (json_dumps Sample.links)) "" None
             (inl (RuntimeError "connection refused"))])
  /\ count is_generate (trace_of (request Sample.client_down "Japan" None None))
     = 3%nat.
Proof.
  apply (client_always_failing Sample.client_down "Japan" None None
           Sample.found Sample.links 3 Sample.call_gemini Sample.parser_module).
  - constructor; reflexivity.
  - lia.
  - intros k sp pr m. exists (RuntimeError "connection refused").
    split; reflexivity.
Defined.

(** The [k]-th call of the completion client in any request carries the
    model selected for attempt [k]. *)
Lemma calls_carry_selected_model
    (w : World) (country : string) (limit : option Z) (model : option string) :
  let tr := trace_of (request w country limit model) in
  generate_models tr
  = map (selected_model model (environ w !! "GEMINI_FAST_MODEL")
           (environ w !! "GEMINI_STRONG_MODEL"))
        (seq 1 (count is_generate tr)).
Proof.
  intros tr. subst tr. rewrite count_generate_models.
  destruct (request_cases w country limit model)
    as [(sd & links_list & n & cg & parser_mod & Hready)
       |(tr & Hsetup & Hreq)].
  - rewrite (request_ready w country limit model _ _ _ _ _ Hready).
    pose proof (request_loop_run w country limit model sd links_list n cg parser_mod)
      as Hrun. cbv zeta in Hrun.
    destruct (trace_of_finish w links_list
                (retry_loop w model (environ w !! "GEMINI_STRONG_MODEL")
                   (environ w !! "GEMINI_FAST_MODEL") n
                   (system_prompt (json_dumps links_list)) (Z.to_nat n) 0 None
                   (setup_trace country limit sd cg parser_mod)))
      as (post & -> & Hpost).
    destruct (run_models _ _ _ _ _ _ _ _ _ _ Hrun) as (ext & -> & Hm).
    assert (Hpm : generate_models post = []).
    { destruct Hpost as [->|(parsed & r & _ & ->)]; reflexivity. }
    rewrite !generate_models_app, Hpm, app_nil_r. simpl generate_models at 1 3.
    simpl app. rewrite Hm at 1. apply map_ext. intros i.
    rewrite Z.add_0_l. apply keyword_selected.
  - assert (Htr : trace_of (request w country limit model) = tr)
      by (destruct Hreq as [->|[e ->]]; reflexivity).
    rewrite Htr. destruct (setup_no_generate tr Hsetup) as [-> _]. reflexivity.
Qed.

(** The selection at work: pinned by the caller, and escalating from the
    fast to the strong model. *)
Example selected_model_pinned :
  map (selected_model (Some "gemini-2.5-flash") (Some "fast") (Some "strong")) [1; 2; 3]%nat
  = [Some "gemini-2.5-flash"; Some "gemini-2.5-flash"; Some "gemini-2.5-flash"].
Proof. reflexivity. Qed.

Example escalation_on_the_trace :
  generate_models (trace_of (request Sample.escalating "Japan" None None))
  = [Some "gemini-2.5-flash"; Some "gemini-2.5-pro"]
  /\ generate_models
       (trace_of (request Sample.escalating "Japan" None (Some "pinned")))
     = [Some "pinned"; Some "pinned"]
  /\ generate_models (trace_of (request Sample.second_try "Japan" None None))
     = [None; None].
Proof. repeat split; vm_compute; reflexivity. Qed.

Example selected_model_escalates :
  map (selected_model None (Some "fast") (Some "strong")) [1; 2; 3]%nat
  = [Some "fast"; Some "strong"; Some "strong"]
  /\ map (selected_model None (Some "fast") None) [1; 2; 3]%nat
     = [Some "fast"; Some "fast"; Some "fast"]
  /\ map (selected_model None None None) [1; 2]%nat = [None; None].
Proof. repeat split. Qed.

(** ** Exhausted retries with empty parses *)

(** When every attempt receives text that parses to nothing, the loop
    leaves [parsed_locations] as the empty list after [n] calls, so
    the [is None] test does not fire: the request goes on to the link
    helper with no records. *)
Lemma empty_parses_reach_link_helper
    (w : World) (country : string) (limit : option Z) (model : option string)
    (sd : search_dict) (links_list : list Link) (n : Z) (cg parser_mod : module) :
  reaches_loop w country limit sd links_list n cg parser_mod ->
  (1 <= n)%Z ->
  (forall k sp pr m, exists g, generate_response w k sp pr m = inr g) ->
  (forall k text, absorbed (parse_gemini_latlon_list w k text) = Some []) ->
  exists tr,
    request w country limit model = finish w links_list (Normal (Some []) tr)
    /\ count is_generate tr = Z.to_nat n
    /\ forall tr', request w country limit model <> Raise upstream_unparsable tr'.
Proof.
  intros Hready Hn Hgen Hparse.
  rewrite (request_ready w country limit model _ _ _ _ _ Hready).
  pose proof (request_loop_run w country limit model sd links_list n cg parser_mod)
    as Hrun. cbv zeta in Hrun.
  destruct (run_always_empty _ _ _ _ _ _ _ _ _ _ Hrun Hgen Hparse)
    as (ext & -> & Hcg & _).
  replace (0 <? n)%Z with true by (symmetry; apply Z.ltb_lt; lia).
  eexists. split; [reflexivity|]. split.
  - rewrite count_app, Hcg. simpl. lia.
  - intros tr'. simpl.
    destruct (add_links_to_locations w [] links_list) as [e|final];
      [destruct (isinstance_Exception e) eqn:He|]; try discriminate.
    intros [= -> _]. discriminate.
Qed.

(** C1.  The scenario of the specification: two retries, and a
    completion that always answers with the text ERROR, which parses to
    nothing.  After exactly two calls the request does not fail: it hands
    the empty list to the link helper and returns what that returns. *)
Theorem unparsable_answers_return_normally :
  request Sample.unparsable "Japan" None None
  = Return []
      (setup_trace "Japan" None Sample.found Sample.call_gemini Sample.parser_module
       ++ [Generate (system_prompt (json_dumps Sample.links)) "" None
             (inr (GenStr "ERROR"));
           Parse "ERROR" (inr (Some []));
           Sleep 0.6;
           Generate (system_prompt (json_dumps Sample.links)) "" None
             (inr (GenStr "ERROR"));
           Parse "ERROR" (inr (Some []));
           AddLinks [] Sample.links (inr [])]).
Proof. vm_compute. reflexivity. Qed.

(** ** Failing to import the completion client *)

(** C2, as stated, fails: when [gemini.call_gemini] cannot be imported
    the request returns the empty list; no error reaches the caller. *)
Lemma import_failure_returns_empty :
  let w := Sample.no_client (inl (ImportError "No module named gemini")) in
  import_module w "gemini.call_gemini" = inl (ImportError "No module named gemini")
  /\ request w "Japan" None None
     = Return [] [Search "Japan" None (inr Sample.found);
                  Import "gemini.call_gemini"
                    (inl (ImportError "No module named gemini"))]
  /\ ~ exists e tr, request w "Japan" None None = Raise e tr.
Proof.
  intros w. split; [reflexivity|].
  assert (Hreq : request w "Japan" None None
    = Return [] [Search "Japan" None (inr Sample.found);
                 Import "gemini.call_gemini"
                   (inl (ImportError "No module named gemini"))])
    by (vm_compute; reflexivity).
  split; [exact Hreq|].
  intros (e & tr & Hraise). rewrite Hreq in Hraise. discriminate.
Qed.

(** C2, amended.  Once the link search and the retry setting are read,
    the module of the completion client is imported once.  If the import
    raises an [Exception], or the module has no callable
    [generate_response], the request returns the empty list without
    calling the completion client; only an exception outside [Exception]
    (the [SystemExit] of a missing API key) reaches the caller. *)
Theorem client_import_failure
    (w : World) (country : string) (limit : option Z) (model : option string)
    (sd : search_dict) (links_list : list Link) (n : Z) :
  search_volunteer_links w country limit = inr sd ->
  links_of sd = inr links_list ->
  int (default "3" (environ w !! "GEMINI_MAX_RETRIES")) = inr n ->
  (forall e,
      import_module w "gemini.call_gemini" = inl e ->
      request w country limit model
      = (if isinstance_Exception e
         then Return [] [Search country limit (inr sd);
                         Import "gemini.call_gemini" (inl e)]
         else Raise e [Search country limit (inr sd);
                       Import "gemini.call_gemini" (inl e)]))
  /\ (forall cg,
         import_module w "gemini.call_gemini" = inr cg ->
         callable (getattr cg "generate_response") = false ->
         request w country limit model
         = Return [] [Search country limit (inr sd);
                      Import "gemini.call_gemini" (inr cg)]).
Proof.
  intros Hs Hl Hn. split.
  - intros e Hc. unfold_handler. follow Hs. follow Hl. follow Hn. follow Hc.
    destruct e; reflexivity.
  - intros cg Hc Hg. unfold_handler. follow Hs. follow Hl. follow Hn. follow Hc.
    follow Hg. reflexivity.
Qed.

Lemma client_import_failure_witness :
  request (Sample.no_client (inl (ImportError "No module named gemini")))
    "Japan" None None
  = Return [] [Search "Japan" None (inr Sample.found);
               Import "gemini.call_gemini"
                 (inl (ImportError "No module named gemini"))]
  /\ request (Sample.no_client (inl (SystemExit 1))) "Japan" None None
     = Raise (SystemExit 1) [Search "Japan" None (inr Sample.found);
                             Import "gemini.call_gemini" (inl (SystemExit 1))]
  /\ request (Sample.no_client (inr ∅)) "Japan" None None
     = Return [] [Search "Japan" None (inr Sample.found);
                  Import "gemini.call_gemini" (inr ∅)].
Proof.
  split; [|split].
  - exact (proj1 (client_import_failure
                    (Sample.no_client (inl (ImportError "No module named gemini")))
                    "Japan" None None Sample.found Sample.links 3
                    eq_refl eq_refl eq_refl)
                 (ImportError "No module named gemini") eq_refl).
  - exact (proj1 (client_import_failure (Sample.no_client (inl (SystemExit 1)))
                    "Japan" None None Sample.found Sample.links 3
                    eq_refl eq_refl eq_refl)
                 (SystemExit 1) eq_refl).
  - exact (proj2 (client_import_failure (Sample.no_client (inr ∅))
                    "Japan" None None Sample.found Sample.links 3
                    eq_refl eq_refl eq_refl)
                 ∅ eq_refl eq_refl).
Defined.

(** ** After the first non-empty parse *)

Lemma no_success_split (tr pre post : trace) (ev : event) :
  no_success tr -> tr = pre ++ ev :: post -> successful_parse ev = false.
Proof.
  intros Hns ->. apply Forall_app in Hns as [_ Hns].
  apply Forall_cons in Hns as [Hev _]. exact Hev.
Qed.

(** A trace with a single successful parse splits around it in one way. *)
Lemma split_at_success (l1 l2 l1' l2' : trace) (x x' : event) :
  l1 ++ x :: l2 = l1' ++ x' :: l2' ->
  no_success l1 -> no_success l2 -> successful_parse x' = true ->
  l1 = l1' /\ x = x' /\ l2 = l2'.
Proof.
  revert l1'. induction l1 as [|y l1 IH]; intros [|y' l1'] Heq Hn1 Hn2 Hx';
    simpl in Heq; injection Heq as Hhd Htl.
  - subst. repeat split.
  - subst y'. rewrite (no_success_split l2 l1' l2' x' Hn2 Htl) in Hx'. discriminate.
  - subst y. apply Forall_cons in Hn1 as [Hy _]. congruence.
  - subst y'. apply Forall_cons in Hn1 as [_ Hn1].
    destruct (IH l1' Htl Hn1 Hn2 Hx') as (-> & -> & ->). repeat split.
Qed.

Section AfterSuccess.

Variable w : World.
Variables (country : string) (limit : option Z) (model : option string).

(** A non-empty parse on the trace of a request is the last event of the
    loop: the request got as far as the loop, and it continues from the
    loop with exactly these records. *)
Lemma request_after_success (pre post : trace) (text : string)
    (recs : list Location) :
  trace_of (request w country limit model)
  = pre ++ Parse text (inr (Some recs)) :: post ->
  recs <> [] ->
  exists sd links_list n cg parser_mod,
    reaches_loop w country limit sd links_list n cg parser_mod
    /\ request w country limit model
       = finish w links_list
           (Normal (Some recs) (pre ++ [Parse text (inr (Some recs))])).
Proof.
  intros Htrace Hne.
  assert (Hsucc : successful_parse (Parse text (inr (Some recs))) = true)
    by (destruct recs; [contradiction|reflexivity]).
  destruct (request_cases w country limit model)
    as [(sd & links_list & n & cg & parser_mod & Hready)
       |(tr & Hsetup & Hreq)].
  - exists sd, links_list, n, cg, parser_mod. split; [exact Hready|].
    rewrite (request_ready w country limit model _ _ _ _ _ Hready) in *.
    pose proof (request_loop_run w country limit model sd links_list n cg parser_mod)
      as Hrun. cbv zeta in Hrun.
    assert (Hns : no_success (setup_trace country limit sd cg parser_mod))
      by (repeat constructor).
    destruct (trace_of_finish w links_list
                (retry_loop w model (environ w !! "GEMINI_STRONG_MODEL")
                   (environ w !! "GEMINI_FAST_MODEL") n
                   (system_prompt (json_dumps links_list)) (Z.to_nat n) 0 None
                   (setup_trace country limit sd cg parser_mod)))
      as (tail & Htail & Hshape).
    rewrite Htail in Htrace.
    assert (Hnt : no_success tail).
    { destruct Hshape as [->|(parsed & r & _ & ->)]; repeat constructor. }
    destruct (run_outcome _ _ _ _ _ _ _ _ _ _ Hrun)
      as [(ext & p' & Hc & Hne' & _)
         |[(ext & text' & recs' & k & Hc & Hne' & _ & _)
          |(ext & e & Hc & Hne')]];
      rewrite Hc in Htrace |- *; cbn [trace_of] in Htrace.
    + exfalso.
      assert (Hall : no_success
                ((setup_trace country limit sd cg parser_mod ++ ext) ++ tail))
        by (repeat apply no_success_app; assumption).
      rewrite (no_success_split _ _ _ _ Hall Htrace) in Hsucc. discriminate.
    + assert (Htrace' :
        (setup_trace country limit sd cg parser_mod ++ ext)
          ++ Parse text' (inr (Some recs')) :: tail
        = pre ++ Parse text (inr (Some recs)) :: post)
        by (rewrite <- Htrace, <- !app_assoc; reflexivity).
      destruct (split_at_success _ _ _ _ _ _ Htrace') as (Hpre & Hev & _);
        try assumption.
      { apply no_success_app; assumption. }
      injection Hev as -> ->. rewrite <- Hpre, <- app_assoc. reflexivity.
    + exfalso.
      assert (Hall : no_success
                ((setup_trace country limit sd cg parser_mod ++ ext) ++ tail))
        by (repeat apply no_success_app; assumption).
      rewrite (no_success_split _ _ _ _ Hall Htrace) in Hsucc. discriminate.
  - exfalso.
    assert (Htr : trace_of (request w country limit model) = tr)
      by (destruct Hreq as [->|[e ->]]; reflexivity).
    rewrite Htr in Htrace. destruct (setup_no_generate tr Hsetup) as [_ Hns].
    rewrite (no_success_split _ _ _ _ Hns Htrace) in Hsucc. discriminate.
Qed.

End AfterSuccess.

(** C5.  A parser call that answers with a non-empty list is the last
    thing the retry loop does: the only event after it is the call of the
    link helper, made with exactly that list and the link list of the
    search; in particular no later call of the completion client
    follows. *)
Theorem first_success_ends_the_loop
    (w : World) (country : string) (limit : option Z) (model : option string)
    (pre post : trace) (text : string) (recs : list Location) :
  trace_of (request w country limit model)
  = pre ++ Parse text (inr (Some recs)) :: post ->
  recs <> [] ->
  exists sd links_list,
    search_volunteer_links w country limit = inr sd
    /\ links_of sd = inr links_list
    /\ post = [AddLinks recs links_list
                 (add_links_to_locations w recs links_list)]
    /\ count is_generate post = 0%nat.
Proof.
  intros Htrace Hne.
  destruct (request_after_success w country limit model _ _ _ _ Htrace Hne)
    as (sd & links_list & n & cg & parser_mod & Hready & Hreq).
  exists sd, links_list.
  split; [apply (search_ok _ _ _ _ _ _ _ _ Hready)|].
  split; [apply (links_ok _ _ _ _ _ _ _ _ Hready)|].
  assert (Hpost : post = [AddLinks recs links_list
                            (add_links_to_locations w recs links_list)]).
  { rewrite Hreq, trace_of_finish_parsed, <- app_assoc in Htrace.
    apply app_inv_head in Htrace. injection Htrace as <-. reflexivity. }
  split; [exact Hpost|]. rewrite Hpost. reflexivity.
Qed.

Lemma first_success_ends_the_loop_witness :
  exists sd links_list,
    search_volunteer_links Sample.second_try "Japan" None = inr sd
    /\ links_of sd = inr links_list
    /\ [AddLinks [Sample.japan] Sample.links
          (inr [<["link" := VStr "https://a.example/1"]> Sample.japan])]
       = [AddLinks [Sample.japan] links_list
            (add_links_to_locations Sample.second_try [Sample.japan] links_list)]
    /\ count is_generate
         [AddLinks [Sample.japan] Sample.links
            (inr [<["link" := VStr "https://a.example/1"]> Sample.japan])]
       = 0%nat.
Proof.
  apply (first_success_ends_the_loop Sample.second_try "Japan" None None
           (setup_trace "Japan" None Sample.found Sample.call_gemini
              Sample.parser_module
            ++ [Generate (system_prompt (json_dumps Sample.links)) "" None
                  (inr (GenStr "ERROR"));
                Parse "ERROR" (inr (Some []));
                Sleep 0.6;
                Generate (system_prompt (json_dumps Sample.links)) "" None
                  (inr (GenStr Sample.japan_text))])
           [AddLinks [Sample.japan] Sample.links
              (inr [<["link" := VStr "https://a.example/1"]> Sample.japan])]
           Sample.japan_text [Sample.japan]).
  - vm_compute. reflexivity.
  - discriminate.
Defined.

(** C7.  When the link helper raises an [Exception] after a non-empty
    parse, the request does not fail: it returns the parsed records as
    they are. *)
Theorem link_helper_failure_degrades
    (w : World) (country : string) (limit : option Z) (model : option string)
    (pre post : trace) (text : string) (recs : list Location)
    (sd : search_dict) (links_list : list Link) (e : exn) :
  trace_of (request w country limit model)
  = pre ++ Parse text (inr (Some recs)) :: post ->
  recs <> [] ->
  search_volunteer_links w country limit = inr sd ->
  links_of sd = inr links_list ->
  add_links_to_locations w recs links_list = inl e ->
  isinstance_Exception e = true ->
  request w country limit model
  = Return recs
      (pre ++ [Parse text (inr (Some recs)); AddLinks recs links_list (inl e)]).
Proof.
  intros Htrace Hne Hs Hl Hadd He.
  destruct (request_after_success w country limit model _ _ _ _ Htrace Hne)
    as (sd' & links' & n & cg & parser_mod & Hready & Hreq).
  pose proof (search_ok _ _ _ _ _ _ _ _ Hready) as Hs'.
  pose proof (links_ok _ _ _ _ _ _ _ _ Hready) as Hl'.
  assert (sd' = sd) by congruence. subst sd'.
  assert (links' = links_list) by congruence. subst links'.
  rewrite Hreq. simpl. rewrite Hadd, He, <- app_assoc.
  destruct recs; [contradiction|reflexivity].
Qed.

Lemma link_helper_failure_degrades_witness :
  request Sample.degraded "Japan" None None
  = Return [Sample.japan]
      ((setup_trace "Japan" None Sample.found Sample.call_gemini
          Sample.parser_module
        ++ [Generate (system_prompt (json_dumps Sample.links)) "" None
              (inr (GenStr Sample.japan_text));
            Parse Sample.japan_text (inl (ValueError "bad json"));
            Sleep 0.6;
            Generate (system_prompt (json_dumps Sample.links)) "" None
              (inr (GenStr Sample.japan_text))])
       ++ [Parse Sample.japan_text (inr (Some [Sample.japan]));
           AddLinks [Sample.japan] Sample.links
             (inl (RuntimeError "length mismatch"))]).
Proof.
  apply (link_helper_failure_degrades Sample.degraded "Japan" None None
           _ [AddLinks [Sample.japan] Sample.links
                (inl (RuntimeError "length mismatch"))]
           Sample.japan_text [Sample.japan] Sample.found Sample.links
           (RuntimeError "length mismatch")).
  - vm_compute. reflexivity.
  - discriminate.
  - reflexivity.
  - reflexivity.
  - reflexivity.
  - reflexivity.
Defined.

(** ** The size of the result *)

(** C9, as stated, fails: with two links, a parser that hands back three
    records and a link helper that raises, the request returns the three
    parsed records. *)
Lemma output_can_exceed_links :
  search_volunteer_links Sample.overfull "Japan" None = inr Sample.found
  /\ links_of Sample.found = inr Sample.links
  /\ (exists tr,
        request Sample.overfull "Japan" None None
        = Return [Sample.japan; Sample.kenya; Sample.japan] tr)
  /\ ~ (length [Sample.japan; Sample.kenya; Sample.japan]
        <= length Sample.links)%nat.
Proof.
  split; [reflexivity|]. split; [reflexivity|]. split.
  - eexists. vm_compute. reflexivity.
  - simpl. lia.
Qed.

(** C9, amended.  The handler passes lists on without counting them: a
    returned list is empty, is what the link helper returned, or is what
    the parser returned.  So the result is no longer than the link list
    whenever neither the parser nor the link helper hands back more
    entries than there are links. *)
Theorem output_bounded_by_links
    (w : World) (country : string) (limit : option Z) (model : option string)
    (sd : search_dict) (links_list : list Link)
    (out : list Location) (tr : trace) :
  search_volunteer_links w country limit = inr sd ->
  links_of sd = inr links_list ->
  (forall k text recs,
      parse_gemini_latlon_list w k text = inr (Some recs) ->
      (length recs <= length links_list)%nat) ->
  (forall parsed final,
      add_links_to_locations w parsed links_list = inr final ->
      (length final <= length links_list)%nat) ->
  request w country limit model = Return out tr ->
  (length out <= length links_list)%nat.
Proof.
  intros Hs Hl Hparser Hhelper Hreq.
  destruct (request_cases w country limit model)
    as [(sd' & links' & n & cg & parser_mod & Hready)
       |(tr' & _ & [Hret|[e Hraise]])].
  - pose proof (search_ok _ _ _ _ _ _ _ _ Hready) as Hs'.
    pose proof (links_ok _ _ _ _ _ _ _ _ Hready) as Hl'.
    assert (sd' = sd) by congruence. subst sd'.
    assert (links' = links_list) by congruence. subst links'.
    rewrite (request_ready w country limit model _ _ _ _ _ Hready) in Hreq.
    pose proof (request_loop_run w country limit model sd links_list n cg parser_mod)
      as Hrun. cbv zeta in Hrun.
    destruct (run_outcome _ _ _ _ _ _ _ _ _ _ Hrun)
      as [(ext & p' & Hc & _ & [->| ->])
         |[(ext & text & recs & k & Hc & _ & Hne & Hk)
          |(ext & e & Hc & _)]];
      rewrite Hc in Hreq; simpl in Hreq; try discriminate.
    + destruct (add_links_to_locations w [] links_list) as [e|final] eqn:Hadd;
        [destruct (isinstance_Exception e); [|discriminate]|].
      * injection Hreq as <- _. simpl. lia.
      * injection Hreq as <- _. exact (Hhelper _ _ Hadd).
    + destruct (add_links_to_locations w recs links_list) as [e|final] eqn:Hadd;
        [destruct (isinstance_Exception e); [|discriminate]|].
      * injection Hreq as <- _.
        destruct recs; [contradiction|]. exact (Hparser _ _ _ Hk).
      * injection Hreq as <- _. exact (Hhelper _ _ Hadd).
  - rewrite Hret in Hreq. injection Hreq as <- _. simpl. lia.
  - rewrite Hraise in Hreq. discriminate.
Qed.

Lemma output_bounded_by_links_witness :
  (length [<["link" := VStr "https://a.example/1"]> Sample.japan]
   <= length Sample.links)%nat.
Proof.
  apply (output_bounded_by_links Sample.second_try "Japan" None None
           Sample.found Sample.links
           [<["link" := VStr "https://a.example/1"]> Sample.japan]
           (trace_of (request Sample.second_try "Japan" None None))).
  - reflexivity.
  - reflexivity.
  - intros k text recs. unfold Sample.second_try, Sample.world, Sample.parser.
    simpl. destruct (text =? Sample.japan_text)%string;
      intros [= <-]; simpl; lia.
  - intros parsed final [= <-]. clear.
    generalize Sample.links as ls. induction parsed as [|loc parsed IH];
      intros [|l ls]; simpl; try lia.
    specialize (IH ls). lia.
  - vm_compute. reflexivity.
Defined.

(** ** Parser failures are absorbed *)

Lemma count_lenient (p : event -> bool) (tr : trace) :
  (forall ev, p (lenient_event ev) = p ev) ->
  count p (map lenient_event tr) = count p tr.
Proof.
  intros Hp. induction tr as [|ev tr IH]; simpl; [reflexivity|].
  rewrite Hp, IH. reflexivity.
Qed.

Lemma count_parse_lenient tr :
  count is_parse (map lenient_event tr) = count is_parse tr.
Proof. apply count_lenient. intros []; reflexivity. Qed.

Lemma count_generate_lenient tr :
  count is_generate (map lenient_event tr) = count is_generate tr.
Proof. apply count_lenient. intros []; reflexivity. Qed.

Section Sim.

Context {A B : Type}.

Lemma sim_ret (a : A) : sim (ret a) (ret a).
Proof. intros tr. reflexivity. Qed.

Lemma sim_raise (e : exn) : sim (@raise A e) (raise e).
Proof. intros tr. reflexivity. Qed.

Lemma sim_return (v : list Location) : sim (@return_ A v) (return_ v).
Proof. intros tr. reflexivity. Qed.

Lemma sim_lift (r : result A) : sim (lift r) (lift r).
Proof. destruct r; intros tr; reflexivity. Qed.

Lemma sim_bind (m m' : M A) (k k' : A -> M B) :
  sim m m' -> (forall a, sim (k a) (k' a)) -> sim (bind m k) (bind m' k').
Proof.
  intros Hm Hk tr. unfold bind. rewrite <- Hm.
  destruct (m tr) as [a tr'|v tr'|e tr'|]; simpl; try reflexivity.
  apply Hk.
Qed.

Lemma sim_try (m m' : M A) (handlers : exn -> option (M A)) :
  sim m m' ->
  (forall e h, handlers e = Some h -> sim h h) ->
  sim (try_except m handlers) (try_except m' handlers).
Proof.
  intros Hm Hh tr. unfold try_except. rewrite <- Hm.
  destruct (m tr) as [a tr'|v tr'|e tr'|]; simpl; try reflexivity.
  destruct (handlers e) as [h|] eqn:He; [|reflexivity].
  apply (Hh e h He).
Qed.

Lemma sim_except_Exception (h : M A) :
  sim h h -> forall e h', except_Exception h e = Some h' -> sim h' h'.
Proof.
  intros Hh e h'. unfold except_Exception.
  destruct (isinstance_Exception e); [|discriminate].
  intros [= <-]. exact Hh.
Qed.

(** An external call other than the parser's, whose answer does not
    depend on what the parser answered. *)
Lemma sim_external (answer : trace -> result A) (record : result A -> event) :
  (forall tr, answer (map lenient_event tr) = answer tr) ->
  (forall r, lenient_event (record r) = record r) ->
  sim (external answer record) (external answer record).
Proof.
  intros Hanswer Hrecord tr. unfold external. rewrite Hanswer.
  destruct (answer tr) as [e|a]; simpl; rewrite map_app; simpl;
    rewrite Hrecord; reflexivity.
Qed.

End Sim.

Lemma sim_sleep (seconds : Q) : sim (sleep seconds) (sleep seconds).
Proof. intros tr. unfold sleep. simpl. rewrite map_app. reflexivity. Qed.

Lemma lenient_answer_absorbed r :
  absorbed (lenient_answer r) = absorbed r.
Proof.
  destruct r as [e|[l|]]; unfold lenient_answer; simpl; try reflexivity.
  destruct (isinstance_Exception e) eqn:He; simpl; [reflexivity|].
  rewrite He. reflexivity.
Qed.

(** The parse step of an attempt, in a world and in its lenient twin. *)
Lemma sim_parse_step (w : World) (text : string) :
  sim (try_except
         (p <- parse_fn w text ;;
          ret (match p with Some l => l | None => [] end))
         (except_Exception (ret [])))
      (try_except
         (p <- parse_fn (lenient_world w) text ;;
          ret (match p with Some l => l | None => [] end))
         (except_Exception (ret []))).
Proof.
  intros tr. unfold try_except, bind, parse_fn, external, except_Exception, ret.
  rewrite count_parse_lenient. simpl parse_gemini_latlon_list.
  destruct (parse_gemini_latlon_list w (count is_parse tr) text)
    as [e|[l|]] eqn:Hp; unfold lenient_answer at 1; simpl absorbed.
  - destruct (isinstance_Exception e) eqn:He; simpl;
      rewrite map_app; simpl; unfold lenient_answer; simpl; rewrite ?He;
      reflexivity.
  - simpl. rewrite map_app. reflexivity.
  - simpl. rewrite map_app. reflexivity.
Qed.

Lemma sim_retry_loop (w : World) (model STRONG_MODEL FAST_MODEL : option string)
    (MAX_RETRIES : Z) (prompt : string) (fuel : nat) :
  forall attempt parsed_locations,
    sim (retry_loop w model STRONG_MODEL FAST_MODEL MAX_RETRIES prompt
           fuel attempt parsed_locations)
        (retry_loop (lenient_world w) model STRONG_MODEL FAST_MODEL MAX_RETRIES
           prompt fuel attempt parsed_locations).
Proof.
  induction fuel as [|fuel IH]; intros attempt parsed_locations; simpl;
    destruct (attempt <? MAX_RETRIES)%Z; try apply sim_ret.
  - intros tr. reflexivity.
  - apply sim_bind.
    + apply sim_try.
      * apply sim_bind; [|intros g; apply sim_ret].
        apply sim_external; [|reflexivity].
        intros tr. rewrite count_generate_lenient. reflexivity.
      * apply sim_except_Exception.
        destruct (attempt + 1 <? MAX_RETRIES)%Z; [|apply sim_raise].
        apply sim_bind; [apply sim_sleep|intros _; apply sim_ret].
    + intros [gemini_text_str|]; [|apply IH].
      apply sim_bind; [apply sim_parse_step|].
      intros parsed. destruct (truthy_list parsed); [apply sim_ret|].
      apply sim_bind; [|intros _; apply IH].
      destruct (attempt + 1 <? MAX_RETRIES)%Z; [apply sim_sleep|apply sim_ret].
Qed.

Lemma sim_convert (w : World) (country : string) (limit : option Z)
    (model : option string) :
  sim (convert_idealist_to_geo w country limit model)
      (convert_idealist_to_geo (lenient_world w) country limit model).
Proof.
  unfold convert_idealist_to_geo.
  apply sim_bind.
  { apply sim_try.
    - apply sim_external; reflexivity.
    - intros e h. destruct (isinstance_HTTPException e).
      + intros [= <-]. apply sim_raise.
      + apply sim_except_Exception, sim_return. }
  intros search_dict. apply sim_bind; [apply sim_lift|].
  intros links_list. apply sim_bind; [apply sim_lift|].
  intros MAX_RETRIES. apply sim_bind.
  { apply sim_try.
    - unfold import_call_gemini_module. apply sim_try.
      + apply sim_external; reflexivity.
      + intros e h He.
        assert (Hh : h = raise e).
        { destruct e; simpl in He; try discriminate He;
            injection He as <-; reflexivity. }
        rewrite Hh. apply sim_raise.
    - apply sim_except_Exception, sim_return. }
  intros cg.
  destruct (negb (callable (getattr cg "generate_response")));
    [apply sim_return|].
  apply sim_bind.
  { unfold import_parser_module. apply sim_try.
    - apply sim_bind; [apply sim_external; reflexivity|].
      intros parser_mod.
      destruct (negb (callable (getattr parser_mod "parse_gemini_latlon_list")));
        [apply sim_raise|apply sim_ret].
    - intros e. apply sim_except_Exception, sim_raise. }
  intros _. apply sim_bind; [apply sim_retry_loop|].
  intros [parsed|]; [|apply sim_raise].
  apply sim_bind; [|intros final; apply sim_return].
  apply sim_try.
  - apply sim_external; reflexivity.
  - apply sim_except_Exception, sim_ret.
Qed.

(** C6.  A parser call that raises an [Exception] or returns [None] is
    treated as having returned the empty list, and nothing else about the
    request changes: the request completes as it does in the world whose
    parser returns the empty list in those cases - same result or error,
    same calls, same sleeps - so the parser's exception never reaches the
    caller.  (The traces differ only in the recorded answers of those
    parser calls; the parser of the other world answers with a list
    unless it raises outside [Exception].) *)
Theorem parser_failure_is_empty_parse
    (w : World) (country : string) (limit : option Z) (model : option string) :
  map_trace lenient_event (request w country limit model)
  = request (lenient_world w) country limit model
  /\ forall k text,
       match parse_gemini_latlon_list (lenient_world w) k text with
       | inl e => isinstance_Exception e = false
       | inr None => False
       | inr (Some _) => True
       end.
Proof.
  split.
  - apply (sim_convert w country limit model []).
  - intros k text. simpl. unfold lenient_answer.
    destruct (parse_gemini_latlon_list w k text) as [e|[l|]]; simpl;
      try exact I.
    destruct (isinstance_Exception e) eqn:He; [exact I|exact He].
Qed.

(** The first parser call raises; the request carries on as after an
    empty parse and succeeds on the second attempt. *)
Example absorbed_parser_failure_example :
  exists tr,
    request Sample.degraded "Japan" None None = Return [Sample.japan] tr
    /\ In (Parse Sample.japan_text (inl (ValueError "bad json"))) tr
    /\ count is_generate tr = 2%nat.
Proof.
  eexists. split; [vm_compute; reflexivity|]. split.
  - do 4 right. left. reflexivity.
  - reflexivity.
Qed.

(** ** The scenario of a first-attempt success *)

Example first_attempt_success :
  request (Sample.world "3" (fun _ => inr (GenStr Sample.japan_text))
             (fun _ => Sample.parser)
             (fun parsed ls => inr (Sample.attach parsed ls)))
    "Japan" None None
  = Return [<["link" := VStr "https://a.example/1"]> Sample.japan]
      (setup_trace "Japan" None Sample.found Sample.call_gemini
         Sample.parser_module
       ++ [Generate (system_prompt (json_dumps Sample.links)) "" None
             (inr (GenStr Sample.japan_text));
           Parse Sample.japan_text (inr (Some [Sample.japan]));
           AddLinks [Sample.japan] Sample.links
             (inr [<["link" := VStr "https://a.example/1"]> Sample.japan])]).
Proof. vm_compute. reflexivity. Qed.

(** * Further properties of the handler *)

(** ** Shapes of loop traces *)

Lemma sleeps_app (tr1 tr2 : trace) : sleeps (tr1 ++ tr2) = sleeps tr1 ++ sleeps tr2.
Proof.
  induction tr1 as [|ev tr1 IH]; simpl; [reflexivity|].
  destruct ev; simpl; rewrite ?IH; reflexivity.
Qed.

Lemma keyword_not_empty (model STRONG_MODEL FAST_MODEL : option string) (a : Z) :
  keyword model STRONG_MODEL FAST_MODEL a <> Some "".
Proof.
  unfold keyword, model_keyword.
  destruct (model_to_use model STRONG_MODEL FAST_MODEL a) as [[|c s]|];
    simpl; discriminate.
Qed.

Lemma attempt_event_earlier (prompt : string) (MAX_RETRIES a : Z) (ev : event) :
  attempt_event prompt MAX_RETRIES (a + 1) ev ->
  attempt_event prompt MAX_RETRIES a ev.
Proof.
  destruct ev; simpl; try tauto.
  intros (i & Hi & Hq). exists i. split; [lia|exact Hq].
Qed.

Lemma fed_by_client_quiet (tr : trace) :
  Forall (fun ev => is_parse ev = false) tr -> fed_by_client tr.
Proof.
  intros Hq pre text r post ->. apply Forall_app in Hq as [_ Hq].
  apply Forall_cons in Hq as [Hev _]. discriminate.
Qed.

Lemma fed_by_client_app (tr1 tr2 : trace) :
  fed_by_client tr1 -> fed_by_client tr2 -> fed_by_client (tr1 ++ tr2).
Proof.
  intros H1 H2 pre text r post Heq.
  apply app_eq_app in Heq as [l [[Hl Hr]|[Hl Hr]]].
  - destruct l as [|x l].
    + simpl in Hr. symmetry in Hr.
      destruct (H2 [] text r post Hr) as (pre' & sp & p & m & g & Hnil & _).
      destruct pre'; discriminate.
    + injection Hr as <- ->. exact (H1 pre text r l Hl).
  - destruct (H2 l text r post Hr) as (pre' & sp & p & m & g & -> & ->).
    exists (tr1 ++ pre'), sp, p, m, g. subst pre.
    rewrite app_assoc. split; reflexivity.
Qed.

Lemma fed_by_client_pair sp p m g r :
  fed_by_client [Generate sp p m (inr g); Parse (str_of g) r].
Proof.
  intros [|x [|y pre]] text r' post Heq; simpl in Heq; simplify_eq.
  - exists [], sp, p, m, g. split; reflexivity.
  - destruct pre; discriminate.
Qed.

Section LoopShape.

Variable w : World.
Variables (model STRONG_MODEL FAST_MODEL : option string).
Variable (MAX_RETRIES : Z).
Variable (prompt : string).

Let run := loop_run w model STRONG_MODEL FAST_MODEL MAX_RETRIES prompt.

(** Every event of the loop is a call with the one prompt, a parser call
    or a back-off of a non-final attempt; there is at most one sleep per
    non-final attempt and at most one parser call per client call. *)
Lemma run_shape a p tr c :
  run a p tr c ->
  exists ext,
    trace_of c = tr ++ ext
    /\ Forall (attempt_event prompt MAX_RETRIES a) ext
    /\ (length (sleeps ext) <= Z.to_nat (MAX_RETRIES - a - 1))%nat
    /\ (count is_parse ext <= count is_generate ext)%nat.
Proof.
  subst run.
  induction 1 as
    [a p tr Ha | a p tr e Ha Hg He | a p tr e c Ha Hg He Hn Hrun IH
    | a p tr e Ha Hg He Hn | a p tr g e Ha Hg Hp He | a p tr g x l Ha Hg Hp
    | a p tr g c Ha Hg Hp Hrun IH];
    try apply Z.ltb_lt in Ha.
  - exists []. rewrite app_nil_r. repeat split; simpl; try lia. constructor.
  - eexists. split; [reflexivity|]. repeat split; simpl; try lia.
    repeat constructor. apply keyword_not_empty.
  - destruct IH as (ext & -> & Hev & Hsl & Hpc). apply Z.ltb_lt in Hn.
    exists ([gen_event w model STRONG_MODEL FAST_MODEL prompt tr (a + 1);
             Sleep (transport_backoff (a + 1))] ++ ext).
    rewrite <- app_assoc. split; [reflexivity|]. repeat split.
    + repeat constructor.
      * apply keyword_not_empty.
      * exists (a + 1)%Z. split; [lia|now left].
      * eapply Forall_impl; [exact Hev|]. intros ev.
        apply attempt_event_earlier.
    + rewrite sleeps_app, length_app. simpl. lia.
    + rewrite !count_app. simpl. lia.
  - eexists. split; [reflexivity|]. repeat split; simpl; try lia.
    repeat constructor. apply keyword_not_empty.
  - eexists. split; [reflexivity|]. repeat split; simpl; try lia.
    repeat constructor. apply keyword_not_empty.
  - eexists. split; [reflexivity|]. repeat split; simpl; try lia.
    repeat constructor. apply keyword_not_empty.
  - destruct IH as (ext & -> & Hev & Hsl & Hpc).
    exists (([gen_event w model STRONG_MODEL FAST_MODEL prompt tr (a + 1);
              parse_event w tr (str_of g)]
             ++ pause_after_empty MAX_RETRIES (a + 1)) ++ ext).
    split; [rewrite <- !app_assoc; reflexivity|].
    unfold pause_after_empty.
    destruct (a + 1 <? MAX_RETRIES)%Z eqn:Hn;
      [apply Z.ltb_lt in Hn|apply Z.ltb_ge in Hn]; repeat split.
    + repeat constructor.
      * apply keyword_not_empty.
      * exists (a + 1)%Z. split; [lia|now right].
      * eapply Forall_impl; [exact Hev|]. intros ev.
        apply attempt_event_earlier.
    + rewrite sleeps_app, length_app. simpl. lia.
    + rewrite !count_app. simpl. lia.
    + repeat constructor.
      * apply keyword_not_empty.
      * eapply Forall_impl; [exact Hev|]. intros ev.
        apply attempt_event_earlier.
    + rewrite sleeps_app, length_app. simpl. lia.
    + rewrite !count_app. simpl. lia.
Qed.

(** The parser is handed what the client returned in the same attempt. *)
Lemma run_fed a p tr c :
  run a p tr c ->
  exists ext, trace_of c = tr ++ ext /\ fed_by_client ext.
Proof.
  subst run.
  induction 1 as
    [a p tr Ha | a p tr e Ha Hg He | a p tr e c Ha Hg He Hn Hrun IH
    | a p tr e Ha Hg He Hn | a p tr g e Ha Hg Hp He | a p tr g x l Ha Hg Hp
    | a p tr g c Ha Hg Hp Hrun IH].
  - exists []. rewrite app_nil_r. split; [reflexivity|].
    apply fed_by_client_quiet. constructor.
  - eexists. split; [reflexivity|]. apply fed_by_client_quiet. repeat constructor.
  - destruct IH as (ext & -> & Hfed).
    exists ([gen_event w model STRONG_MODEL FAST_MODEL prompt tr (a + 1);
             Sleep (transport_backoff (a + 1))] ++ ext).
    rewrite <- app_assoc. split; [reflexivity|].
    apply fed_by_client_app; [|exact Hfed].
    apply fed_by_client_quiet. repeat constructor.
  - eexists. split; [reflexivity|]. apply fed_by_client_quiet. repeat constructor.
  - eexists. split; [reflexivity|].
    unfold gen_event. rewrite Hg. apply fed_by_client_pair.
  - eexists. split; [reflexivity|].
    unfold gen_event. rewrite Hg. apply fed_by_client_pair.
  - destruct IH as (ext & -> & Hfed).
    exists (([gen_event w model STRONG_MODEL FAST_MODEL prompt tr (a + 1);
              parse_event w tr (str_of g)]
             ++ pause_after_empty MAX_RETRIES (a + 1)) ++ ext).
    split; [rewrite <- !app_assoc; reflexivity|].
    repeat apply fed_by_client_app; try exact Hfed.
    + unfold gen_event. rewrite Hg. apply fed_by_client_pair.
    + apply fed_by_client_quiet. unfold pause_after_empty.
      destruct (a + 1 <? MAX_RETRIES)%Z; repeat constructor.
Qed.

(** The upstream-failure error leaves the loop only from the last
    attempt, after a call that raised. *)
Lemma run_upstream_failed a p tr c tr' :
  run a p tr c ->
  c = Raise upstream_failed tr' ->
  exists ext sp up m e,
    tr' = tr ++ ext ++ [Generate sp up m (inl e)]
    /\ isinstance_Exception e = true
    /\ count is_generate (ext ++ [Generate sp up m (inl e)])
       = Z.to_nat (MAX_RETRIES - a)
    /\ (a < MAX_RETRIES)%Z.
Proof.
  subst run. intros Hrun. revert tr'.
  induction Hrun as
    [a p tr Ha | a p tr e Ha Hg He | a p tr e c Ha Hg He Hn Hrun IH
    | a p tr e Ha Hg He Hn | a p tr g e Ha Hg Hp He | a p tr g x l Ha Hg Hp
    | a p tr g c Ha Hg Hp Hrun IH];
    intros tr' Hc; try discriminate Hc; try apply Z.ltb_lt in Ha.
  - injection Hc as -> _. discriminate He.
  - destruct (IH tr' Hc) as (ext & sp & up & m & e' & -> & He' & Hcount & _).
    exists ([gen_event w model STRONG_MODEL FAST_MODEL prompt tr (a + 1);
             Sleep (transport_backoff (a + 1))] ++ ext), sp, up, m, e'.
    rewrite <- !app_assoc. split; [reflexivity|]. split; [exact He'|].
    split; [|lia]. apply Z.ltb_lt in Hn.
    rewrite count_app, Hcount. simpl. lia.
  - injection Hc as <-. apply Z.ltb_ge in Hn.
    exists [], prompt, "", (keyword model STRONG_MODEL FAST_MODEL (a + 1)), e.
    unfold gen_event. rewrite Hg. split; [reflexivity|]. split; [exact He|].
    split; [simpl; lia|lia].
  - injection Hc as -> _. discriminate He.
  - destruct (IH tr' Hc) as (ext & sp & up & m & e' & -> & He' & Hcount & Hlt).
    exists (([gen_event w model STRONG_MODEL FAST_MODEL prompt tr (a + 1);
              parse_event w tr (str_of g)]
             ++ pause_after_empty MAX_RETRIES (a + 1)) ++ ext), sp, up, m, e'.
    split; [rewrite <- !app_assoc; reflexivity|]. split; [exact He'|].
    split; [|lia].
    rewrite <- !app_assoc, count_app, count_app, Hcount.
    unfold pause_after_empty.
    destruct (a + 1 <? MAX_RETRIES)%Z; simpl; lia.
Qed.

(** When every answer parses to nothing, the loop is a row of empty
    attempts. *)
Lemma run_empty_attempts a p tr c :
  run a p tr c ->
  (forall k sp pr m, exists g, generate_response w k sp pr m = inr g) ->
  (forall k text, absorbed (parse_gemini_latlon_list w k text) = Some []) ->
  forall j : nat,
    a = Z.of_nat j -> count is_generate tr = j -> count is_parse tr = j ->
    trace_of c
    = tr ++ flat_map
              (empty_attempt w model STRONG_MODEL FAST_MODEL MAX_RETRIES prompt)
              (seq (S j) (Z.to_nat (MAX_RETRIES - a))).
Proof.
  subst run. intros Hrun Hgen Hparse.
  induction Hrun as
    [a p tr Ha | a p tr e Ha Hg He | a p tr e c Ha Hg He Hn Hrun IH
    | a p tr e Ha Hg He Hn | a p tr g e Ha Hg Hp He | a p tr g x l Ha Hg Hp
    | a p tr g c Ha Hg Hp Hrun IH];
    intros j Hj Hcg Hcp;
    try (unfold gen_answer in Hg;
         destruct (Hgen (count is_generate tr) prompt ""
                     (keyword model STRONG_MODEL FAST_MODEL (a + 1)))
           as (g' & Hg'); congruence);
    try (unfold parse_answer in Hp;
         specialize (Hparse (count is_parse tr) (str_of g));
         rewrite Hp in Hparse; simpl in Hparse;
         try rewrite He in Hparse; congruence).
  - apply Z.ltb_ge in Ha.
    replace (Z.to_nat (MAX_RETRIES - a)) with 0%nat by lia.
    simpl. rewrite app_nil_r. reflexivity.
  - apply Z.ltb_lt in Ha.
    rewrite (IH (S j));
      [| lia
       | rewrite !count_app; unfold pause_after_empty;
         destruct (a + 1 <? MAX_RETRIES)%Z; simpl; lia..].
    replace (Z.to_nat (MAX_RETRIES - a))
      with (S (Z.to_nat (MAX_RETRIES - (a + 1)))) by lia.
    rewrite <- !app_assoc. simpl seq. simpl flat_map.
    f_equal. unfold empty_attempt at 2.
    replace (Z.of_nat (S j)) with (a + 1)%Z by lia.
    simpl Nat.sub. rewrite Nat.sub_0_r.
    unfold gen_event, parse_event, gen_answer, parse_answer in *.
    rewrite Hcg, Hcp in *. rewrite Hg. unfold pause_after_empty.
    rewrite <- !app_assoc. reflexivity.
Qed.

End LoopShape.

(** ** Shapes of request traces *)

Lemma sleeps_backoffs (prompt : string) (MAX_RETRIES a : Z) (tr : trace) :
  Forall (attempt_event prompt MAX_RETRIES a) tr ->
  Forall (backoff_between a MAX_RETRIES) (sleeps tr).
Proof.
  induction 1 as [|ev tr Hev _ IH]; [constructor|].
  destruct ev; simpl; try exact IH. constructor; [exact Hev|exact IH].
Qed.

Lemma setup_quiet (tr : trace) :
  Forall (fun ev => is_setup ev = true) tr ->
  count is_generate tr = 0%nat /\ count is_parse tr = 0%nat /\ sleeps tr = []
  /\ Forall (fun ev => is_parse ev = false) tr.
Proof.
  induction 1 as [|ev tr Hev _ (IHg & IHp & IHs & IHq)];
    [repeat split; constructor|].
  destruct ev; try discriminate; simpl; repeat split; try assumption;
    constructor; solve [reflexivity | assumption].
Qed.

(** A request either stops during setup, or its trace is the setup, the
    events of the loop and at most one call of the link helper. *)
Lemma request_shape (w : World) (country : string) (limit : option Z)
    (model : option string) :
  (exists sd links_list n cg parser_mod ext post,
      reaches_loop w country limit sd links_list n cg parser_mod
      /\ trace_of (request w country limit model)
         = setup_trace country limit sd cg parser_mod ++ ext ++ post
      /\ Forall (attempt_event (system_prompt (json_dumps links_list)) n 0) ext
      /\ (length (sleeps ext) <= Z.to_nat (n - 1))%nat
      /\ (count is_parse ext <= count is_generate ext)%nat
      /\ fed_by_client ext
      /\ (post = [] \/ exists parsed r, post = [AddLinks parsed links_list r]))
  \/ Forall (fun ev => is_setup ev = true) (trace_of (request w country limit model)).
Proof.
  destruct (request_cases w country limit model)
    as [(sd & links_list & n & cg & parser_mod & Hready)
       |(tr & Hsetup & Hreq)].
  - left. exists sd, links_list, n, cg, parser_mod.
    rewrite (request_ready w country limit model _ _ _ _ _ Hready).
    pose proof (request_loop_run w country limit model sd links_list n cg parser_mod)
      as Hrun. cbv zeta in Hrun.
    destruct (trace_of_finish w links_list
                (retry_loop w model (environ w !! "GEMINI_STRONG_MODEL")
                   (environ w !! "GEMINI_FAST_MODEL") n
                   (system_prompt (json_dumps links_list)) (Z.to_nat n) 0 None
                   (setup_trace country limit sd cg parser_mod)))
      as (post & -> & Hpost).
    destruct (run_shape _ _ _ _ _ _ _ _ _ _ Hrun) as (ext & Hext & Hev & Hsl & Hpc).
    destruct (run_fed _ _ _ _ _ _ _ _ _ _ Hrun) as (ext' & Hext' & Hfed).
    assert (ext' = ext) by (rewrite Hext in Hext'; eapply app_inv_head; eauto).
    subst ext'. exists ext, post. rewrite Hext, <- app_assoc.
    split; [exact Hready|]. split; [reflexivity|].
    split; [exact Hev|]. split; [rewrite Z.sub_0_r in Hsl; exact Hsl|].
    split; [exact Hpc|]. split; [exact Hfed|].
    destruct Hpost as [->|(parsed & r & _ & ->)]; [now left|right; eauto].
  - right. destruct Hreq as [->|[e ->]]; exact Hsetup.
Qed.

(** ** Further properties, one by one *)

(** X1.  A request that reaches the loop calls the completion client at
    most [MAX_RETRIES] times (not at all when the setting is zero or
    negative), and the parser at most once per client call. *)
Theorem attempt_budget
    (w : World) (country : string) (limit : option Z) (model : option string)
    (sd : search_dict) (links_list : list Link) (n : Z) (cg parser_mod : module) :
  reaches_loop w country limit sd links_list n cg parser_mod ->
  let tr := trace_of (request w country limit model) in
  (count is_parse tr <= count is_generate tr)%nat
  /\ (count is_generate tr <= Z.to_nat n)%nat.
Proof.
  intros Hready tr. subst tr. split.
  - destruct (request_shape w country limit model)
      as [(sd' & l' & n' & cg' & pm' & ext & post & _ & -> & _ & _ & Hpc & _ & Hpost)
         |Hsetup].
    + rewrite !count_app.
      assert (count is_parse post = 0%nat /\ count is_generate post = 0%nat)
        as [-> ->]
        by (destruct Hpost as [->|(parsed & r & ->)]; split; reflexivity).
      simpl. lia.
    + destruct (setup_quiet _ Hsetup) as (-> & -> & _). lia.
  - exact (client_calls_bounded w country limit model _ _ _ _ _ Hready).
Qed.

Lemma attempt_budget_witness :
  let tr := trace_of (request Sample2.flaky "Japan" None None) in
  (count is_parse tr <= count is_generate tr)%nat
  /\ (count is_generate tr <= 3)%nat.
Proof.
  apply (attempt_budget Sample2.flaky "Japan" None None
           Sample.found Sample.links 3 Sample.call_gemini Sample.parser_module).
  constructor; reflexivity.
Defined.

(** X2.  A broken parser module is not absorbed the way a broken client
    module is: when importing [gemini.parse_gemini_latlon_list] raises,
    the request raises the same exception, and when the module has no
    callable [parse_gemini_latlon_list] the request raises an
    [ImportError]; in both cases the completion client has not been
    called. *)
Theorem parser_import_failure
    (w : World) (country : string) (limit : option Z) (model : option string)
    (sd : search_dict) (links_list : list Link) (n : Z) (cg : module) :
  search_volunteer_links w country limit = inr sd ->
  links_of sd = inr links_list ->
  int (default "3" (environ w !! "GEMINI_MAX_RETRIES")) = inr n ->
  import_module w "gemini.call_gemini" = inr cg ->
  callable (getattr cg "generate_response") = true ->
  (forall e,
      import_module w "gemini.parse_gemini_latlon_list" = inl e ->
      request w country limit model
      = Raise e [Search country limit (inr sd);
                 Import "gemini.call_gemini" (inr cg);
                 Import "gemini.parse_gemini_latlon_list" (inl e)])
  /\ (forall parser_mod,
         import_module w "gemini.parse_gemini_latlon_list" = inr parser_mod ->
         callable (getattr parser_mod "parse_gemini_latlon_list") = false ->
         request w country limit model
         = Raise (ImportError
             "parse_gemini_latlon_list not found or not callable in gemini.parse_gemini_latlon_list")
             [Search country limit (inr sd);
              Import "gemini.call_gemini" (inr cg);
              Import "gemini.parse_gemini_latlon_list" (inr parser_mod)]).
Proof.
  intros Hs Hl Hn Hc Hg. split.
  - intros e Hp. unfold_handler. follow Hs. follow Hl. follow Hn. follow Hc.
    follow Hg. follow Hp. destruct (isinstance_Exception e); reflexivity.
  - intros parser_mod Hp Hf. unfold_handler. follow Hs. follow Hl. follow Hn.
    follow Hc. follow Hg. follow Hp. follow Hf. reflexivity.
Qed.

Lemma parser_import_failure_witness :
  request (Sample2.no_parser (inl (ImportError "No module named gemini")))
    "Japan" None None
  = Raise (ImportError "No module named gemini")
      [Search "Japan" None (inr Sample.found);
       Import "gemini.call_gemini" (inr Sample.call_gemini);
       Import "gemini.parse_gemini_latlon_list"
         (inl (ImportError "No module named gemini"))]
  /\ request (Sample2.no_parser (inr ∅)) "Japan" None None
     = Raise (ImportError
         "parse_gemini_latlon_list not found or not callable in gemini.parse_gemini_latlon_list")
         [Search "Japan" None (inr Sample.found);
          Import "gemini.call_gemini" (inr Sample.call_gemini);
          Import "gemini.parse_gemini_latlon_list" (inr ∅)].
Proof.
  split.
  - exact (proj1 (parser_import_failure
                    (Sample2.no_parser (inl (ImportError "No module named gemini")))
                    "Japan" None None Sample.found Sample.links 3 Sample.call_gemini
                    eq_refl eq_refl eq_refl eq_refl eq_refl)
                 (ImportError "No module named gemini") eq_refl).
  - exact (proj2 (parser_import_failure (Sample2.no_parser (inr ∅))
                    "Japan" None None Sample.found Sample.links 3 Sample.call_gemini
                    eq_refl eq_refl eq_refl eq_refl eq_refl)
                 ∅ eq_refl eq_refl).
Defined.

Lemma int_error (text : string) (e : exn) :
  int text = inl e -> exists msg, e = ValueError msg.
Proof.
  unfold int, invalid_literal, exceeds_limit.
  repeat match goal with
         | |- context [match ?x with _ => _ end] => destruct x
         end;
    intros [= <-]; eexists; reflexivity.
Qed.

(** X3.  When [GEMINI_MAX_RETRIES] holds ASCII text that is not an
    integer literal, the request fails with a [ValueError] right after
    the link search: nothing is imported and the completion client is
    not called. *)
Theorem invalid_retry_setting
    (w : World) (country : string) (limit : option Z) (model : option string)
    (sd : search_dict) (links_list : list Link) (text : string) (e : exn) :
  search_volunteer_links w country limit = inr sd ->
  links_of sd = inr links_list ->
  environ w !! "GEMINI_MAX_RETRIES" = Some text ->
  is_ascii text = true ->
  int text = inl e ->
  exists msg,
    request w country limit model
    = Raise (ValueError msg) [Search country limit (inr sd)].
Proof.
  intros Hs Hl Henv _ Hn.
  destruct (int_error text e Hn) as (msg & ->). exists msg.
  unfold_handler. follow Hs. follow Hl. rewrite Henv.
  change (default "3" (Some text)) with text. follow Hn. reflexivity.
Qed.

Lemma invalid_retry_setting_witness :
  exists msg,
    request Sample2.bad_retries "Japan" None None
    = Raise (ValueError msg) [Search "Japan" None (inr Sample.found)].
Proof.
  apply (invalid_retry_setting Sample2.bad_retries "Japan" None None
           Sample.found Sample.links "three"
           (ValueError "invalid literal for int() with base 10: 'three'"));
    reflexivity.
Defined.

(** X4.  When the search result has no usable [links] entry and holds
    [None] under [idealist_json], looking up the links raises an
    [AttributeError]; the request fails with it right after the search
    instead of returning the empty list. *)
Theorem null_idealist_json_fails
    (w : World) (country : string) (limit : option Z) (model : option string)
    (sd : search_dict) :
  search_volunteer_links w country limit = inr sd ->
  truthy_list (default [] (sd_links sd)) = false ->
  sd_idealist_json sd = IJNone ->
  request w country limit model
  = Raise (AttributeError "'NoneType' object has no attribute 'get'")
      [Search country limit (inr sd)].
Proof.
  intros Hs Hlinks Hnull.
  assert (Hl : links_of sd
               = inl (AttributeError "'NoneType' object has no attribute 'get'")).
  { unfold links_of. rewrite Hnull.
    destruct (sd_links sd) as [[|l ls]|]; try reflexivity. discriminate Hlinks. }
  unfold_handler. follow Hs. follow Hl. reflexivity.
Qed.

Lemma null_idealist_json_fails_witness :
  request Sample2.null_idealist "Japan" None None
  = Raise (AttributeError "'NoneType' object has no attribute 'get'")
      [Search "Japan" None (inr {| sd_links := None; sd_idealist_json := IJNone |})].
Proof.
  apply (null_idealist_json_fails Sample2.null_idealist "Japan" None None);
    reflexivity.
Defined.

Lemma run_first_call (w : World) (model STRONG_MODEL FAST_MODEL : option string)
    (MAX_RETRIES : Z) (prompt : string) a p tr c :
  loop_run w model STRONG_MODEL FAST_MODEL MAX_RETRIES prompt a p tr c ->
  (a < MAX_RETRIES)%Z ->
  exists rest,
    trace_of c
    = tr ++ gen_event w model STRONG_MODEL FAST_MODEL prompt tr (a + 1) :: rest.
Proof.
  intros Hrun Hlt.
  destruct Hrun as
    [a p tr Ha | a p tr e Ha Hg He | a p tr e c Ha Hg He Hn Hrun
    | a p tr e Ha Hg He Hn | a p tr g e Ha Hg Hp He | a p tr g x l Ha Hg Hp
    | a p tr g c Ha Hg Hp Hrun];
    try (eexists; reflexivity).
  - apply Z.ltb_ge in Ha. lia.
  - destruct (run_shape _ _ _ _ _ _ _ _ _ _ Hrun) as (ext & -> & _).
    eexists. rewrite <- app_assoc. reflexivity.
  - destruct (run_shape _ _ _ _ _ _ _ _ _ _ Hrun) as (ext & -> & _).
    eexists. rewrite <- !app_assoc. reflexivity.
Qed.

(** X5.  Once setup has succeeded and at least one retry is configured,
    the completion client is called - with the prompt rendered from the
    link list, an empty user prompt and the model of attempt 1 - whatever
    the link list is; in particular an empty link list does not cut the
    request short. *)
Theorem first_call_always_made
    (w : World) (country : string) (limit : option Z) (model : option string)
    (sd : search_dict) (links_list : list Link) (n : Z) (cg parser_mod : module) :
  reaches_loop w country limit sd links_list n cg parser_mod ->
  (1 <= n)%Z ->
  let prompt := system_prompt (json_dumps links_list) in
  let m := selected_model model (environ w !! "GEMINI_FAST_MODEL")
             (environ w !! "GEMINI_STRONG_MODEL") 1 in
  exists rest,
    trace_of (request w country limit model)
    = setup_trace country limit sd cg parser_mod
      ++ Generate prompt "" m (generate_response w 0 prompt "" m) :: rest.
Proof.
  intros Hready Hn prompt m.
  rewrite (request_ready w country limit model _ _ _ _ _ Hready).
  pose proof (request_loop_run w country limit model sd links_list n cg parser_mod)
    as Hrun. cbv zeta in Hrun.
  destruct (trace_of_finish w links_list
              (retry_loop w model (environ w !! "GEMINI_STRONG_MODEL")
                 (environ w !! "GEMINI_FAST_MODEL") n
                 (system_prompt (json_dumps links_list)) (Z.to_nat n) 0 None
                 (setup_trace country limit sd cg parser_mod)))
    as (post & -> & _).
  destruct (run_first_call _ _ _ _ _ _ _ _ _ _ Hrun) as (rest & ->); [lia|].
  exists (rest ++ post). rewrite <- app_assoc. simpl app.
  unfold gen_event, gen_answer. simpl count. subst m prompt.
  rewrite <- (keyword_selected w model 1). reflexivity.
Qed.

Lemma first_call_always_made_witness :
  exists rest,
    trace_of (request Sample2.no_links "Japan" None None)
    = setup_trace "Japan" None Sample2.nothing_found Sample.call_gemini
        Sample.parser_module
      ++ Generate (system_prompt "[]") "" None (inr (GenStr "[]")) :: rest.
Proof.
  apply (first_call_always_made Sample2.no_links "Japan" None None
           Sample2.nothing_found [] 1 Sample.call_gemini Sample.parser_module).
  - constructor; reflexivity.
  - lia.
Defined.

(** X6.  Every call of the completion client within a request carries
    the same system prompt, the one rendered from the link list of the
    search, and an empty user prompt. *)
Theorem prompt_fixed_across_attempts
    (w : World) (country : string) (limit : option Z) (model : option string)
    (sp p : string) (m : option string) (r : result gen_value) :
  In (Generate sp p m r) (trace_of (request w country limit model)) ->
  exists sd links_list,
    search_volunteer_links w country limit = inr sd
    /\ links_of sd = inr links_list
    /\ sp = system_prompt (json_dumps links_list)
    /\ p = "".
Proof.
  intros Hin.
  destruct (request_shape w country limit model)
    as [(sd & links_list & n & cg & pm & ext & post & Hready & Htr & Hev & _ & _
         & _ & Hpost)
       |Hsetup].
  - exists sd, links_list.
    split; [apply (search_ok _ _ _ _ _ _ _ _ Hready)|].
    split; [apply (links_ok _ _ _ _ _ _ _ _ Hready)|].
    rewrite Htr in Hin. apply in_app_or in Hin as [Hin|Hin].
    { simpl in Hin. intuition discriminate. }
    apply in_app_or in Hin as [Hin|Hin].
    + apply (proj1 (List.Forall_forall _ _) Hev) in Hin.
      simpl in Hin. tauto.
    + destruct Hpost as [->|(parsed & r' & ->)]; simpl in Hin;
        intuition discriminate.
  - apply (proj1 (List.Forall_forall _ _) Hsetup) in Hin. discriminate.
Qed.

Lemma prompt_fixed_across_attempts_witness :
  exists sd links_list,
    search_volunteer_links Sample.second_try "Japan" None = inr sd
    /\ links_of sd = inr links_list
    /\ system_prompt (json_dumps Sample.links) = system_prompt (json_dumps links_list)
    /\ "" = "".
Proof.
  apply (prompt_fixed_across_attempts Sample.second_try "Japan" None None
           (system_prompt (json_dumps Sample.links)) "" None
           (inr (GenStr Sample.japan_text))).
  vm_compute. do 6 right. left. reflexivity.
Defined.

(** X7.  The completion client is never called with an empty model name:
    the [model] keyword is either left out or a non-empty string. *)
Theorem model_never_empty
    (w : World) (country : string) (limit : option Z) (model : option string)
    (sp p : string) (m : option string) (r : result gen_value) :
  In (Generate sp p m r) (trace_of (request w country limit model)) ->
  m <> Some "".
Proof.
  intros Hin.
  destruct (request_shape w country limit model)
    as [(sd & links_list & n & cg & pm & ext & post & _ & Htr & Hev & _ & _
         & _ & Hpost)
       |Hsetup].
  - rewrite Htr in Hin. apply in_app_or in Hin as [Hin|Hin].
    { simpl in Hin. intuition discriminate. }
    apply in_app_or in Hin as [Hin|Hin].
    + apply (proj1 (List.Forall_forall _ _) Hev) in Hin.
      simpl in Hin. tauto.
    + destruct Hpost as [->|(parsed & r' & ->)]; simpl in Hin;
        intuition discriminate.
  - apply (proj1 (List.Forall_forall _ _) Hsetup) in Hin. discriminate.
Qed.

Lemma model_never_empty_witness :
  Some "gemini-2.5-flash" <> Some "".
Proof.
  apply (model_never_empty Sample.escalating "Japan" None (Some "")
           (system_prompt (json_dumps Sample.links)) "" (Some "gemini-2.5-flash")
           (inr (GenStr "ERROR"))).
  vm_compute. do 3 right. left. reflexivity.
Defined.

(** X8.  The parser is only ever given what the completion client just
    returned: on the trace of any request, each parser call comes
    directly after a client call that returned, and its argument is the
    text of that answer. *)
Theorem parser_fed_by_client
    (w : World) (country : string) (limit : option Z) (model : option string)
    (pre post : trace) (text : string) (r : result (option (list Location))) :
  trace_of (request w country limit model) = pre ++ Parse text r :: post ->
  exists pre' sp p m g,
    pre = pre' ++ [Generate sp p m (inr g)] /\ text = str_of g.
Proof.
  revert pre text r post. change (fed_by_client (trace_of (request w country limit model))).
  destruct (request_shape w country limit model)
    as [(sd & links_list & n & cg & pm & ext & post & _ & -> & _ & _ & _
         & Hfed & Hpost)
       |Hsetup].
  - repeat apply fed_by_client_app; try exact Hfed.
    + apply fed_by_client_quiet. repeat constructor.
    + apply fed_by_client_quiet.
      destruct Hpost as [->|(parsed & r' & ->)]; repeat constructor.
  - apply fed_by_client_quiet. apply (setup_quiet _ Hsetup).
Qed.

Lemma parser_fed_by_client_witness :
  exists pre' sp p m g,
    setup_trace "Japan" None Sample.found Sample.call_gemini Sample.parser_module
    ++ [Generate (system_prompt (json_dumps Sample.links)) "" None
          (inr (GenStr "ERROR"))]
    = pre' ++ [Generate sp p m (inr g)]
    /\ "ERROR" = str_of g.
Proof.
  apply (parser_fed_by_client Sample.second_try "Japan" None None
           (setup_trace "Japan" None Sample.found Sample.call_gemini
              Sample.parser_module
            ++ [Generate (system_prompt (json_dumps Sample.links)) "" None
                  (inr (GenStr "ERROR"))])
           [Sleep 0.6;
            Generate (system_prompt (json_dumps Sample.links)) "" None
              (inr (GenStr Sample.japan_text));
            Parse Sample.japan_text (inr (Some [Sample.japan]));
            AddLinks [Sample.japan] Sample.links
              (inr [<["link" := VStr "https://a.example/1"]> Sample.japan])]
           "ERROR" (inr (Some []))).
  vm_compute. reflexivity.
Defined.

(** X9.  When every attempt gets an answer that parses to nothing, the
    request makes exactly [MAX_RETRIES] attempts: attempt [i] is the
    client call, the parser call on its text and, unless [i] is the last
    attempt, a sleep of [0.6 * i].  What follows the attempts is at most
    the call of the link helper. *)
Theorem empty_parse_backoff
    (w : World) (country : string) (limit : option Z) (model : option string)
    (sd : search_dict) (links_list : list Link) (n : Z) (cg parser_mod : module) :
  reaches_loop w country limit sd links_list n cg parser_mod ->
  (forall k sp pr m, exists g, generate_response w k sp pr m = inr g) ->
  (forall k text, absorbed (parse_gemini_latlon_list w k text) = Some []) ->
  exists tail,
    trace_of (request w country limit model)
    = setup_trace country limit sd cg parser_mod
      ++ flat_map
           (empty_attempt w model (environ w !! "GEMINI_STRONG_MODEL")
              (environ w !! "GEMINI_FAST_MODEL") n
              (system_prompt (json_dumps links_list)))
           (seq 1 (Z.to_nat n))
      ++ tail
    /\ (tail = [] \/ exists parsed r, tail = [AddLinks parsed links_list r]).
Proof.
  intros Hready Hgen Hparse.
  rewrite (request_ready w country limit model _ _ _ _ _ Hready).
  pose proof (request_loop_run w country limit model sd links_list n cg parser_mod)
    as Hrun. cbv zeta in Hrun.
  destruct (trace_of_finish w links_list
              (retry_loop w model (environ w !! "GEMINI_STRONG_MODEL")
                 (environ w !! "GEMINI_FAST_MODEL") n
                 (system_prompt (json_dumps links_list)) (Z.to_nat n) 0 None
                 (setup_trace country limit sd cg parser_mod)))
    as (post & -> & Hpost).
  rewrite (run_empty_attempts _ _ _ _ _ _ _ _ _ _ Hrun Hgen Hparse 0%nat);
    try reflexivity.
  exists post. rewrite Z.sub_0_r, <- app_assoc. split; [reflexivity|].
  destruct Hpost as [->|(parsed & r & _ & ->)]; [now left|right; eauto].
Qed.

Lemma empty_parse_backoff_witness :
  exists tail,
    trace_of (request Sample2.mute "Japan" None None)
    = setup_trace "Japan" None Sample.found Sample.call_gemini Sample.parser_module
      ++ [Generate (system_prompt (json_dumps Sample.links)) "" None
            (inr (GenStr "ERROR"));
          Parse "ERROR" (inl (ValueError "bad json"));
          Sleep 0.6;
          Generate (system_prompt (json_dumps Sample.links)) "" None
            (inr (GenStr "ERROR"));
          Parse "ERROR" (inr None)]
      ++ tail
    /\ (tail = [] \/ exists parsed r, tail = [AddLinks parsed Sample.links r]).
Proof.
  apply (empty_parse_backoff Sample2.mute "Japan" None None
           Sample.found Sample.links 2 Sample.call_gemini Sample.parser_module).
  - constructor; reflexivity.
  - intros k sp pr m. exists (GenStr "ERROR"). reflexivity.
  - intros k text. unfold Sample2.mute, Sample.world. simpl.
    destruct (k =? 0)%nat; reflexivity.
Defined.

(** X10.  A request sleeps only between attempts: at most
    [MAX_RETRIES - 1] times, never after the last attempt, and each sleep
    lasts [0.8 * i] or [0.6 * i] seconds for an attempt [i] with
    [0 < i < MAX_RETRIES].  With a single retry it never sleeps. *)
Theorem sleep_discipline
    (w : World) (country : string) (limit : option Z) (model : option string)
    (sd : search_dict) (links_list : list Link) (n : Z) (cg parser_mod : module) :
  reaches_loop w country limit sd links_list n cg parser_mod ->
  let slept := sleeps (trace_of (request w country limit model)) in
  Forall (fun q => exists i : Z,
            (0 < i < n)%Z /\ (q = transport_backoff i \/ q = parse_backoff i))
         slept
  /\ (length slept <= Z.to_nat (n - 1))%nat.
Proof.
  intros Hready slept. subst slept.
  destruct (request_shape w country limit model)
    as [(sd' & l' & n' & cg' & pm' & ext & post & Hready' & -> & Hev & Hsl & _
         & _ & Hpost)
       |Hsetup].
  - assert (n' = n).
    { pose proof (retries_ok _ _ _ _ _ _ _ _ Hready) as H1.
      pose proof (retries_ok _ _ _ _ _ _ _ _ Hready') as H2. congruence. }
    subst n'.
    assert (Hpost' : sleeps post = [])
      by (destruct Hpost as [->|(parsed & r & ->)]; reflexivity).
    rewrite !sleeps_app, Hpost', app_nil_r. simpl sleeps at 1 3. simpl app.
    split; [|exact Hsl].
    exact (sleeps_backoffs _ _ _ _ Hev).
  - destruct (setup_quiet _ Hsetup) as (_ & _ & -> & _).
    split; [constructor|simpl; lia].
Qed.

Lemma sleep_discipline_witness :
  sleeps (trace_of (request Sample2.flaky "Japan" None None)) = [0.8; 1.6]%Q
  /\ Forall (fun q => exists i : Z,
               (0 < i < 3)%Z /\ (q = transport_backoff i \/ q = parse_backoff i))
            (sleeps (trace_of (request Sample2.flaky "Japan" None None)))
  /\ (length (sleeps (trace_of (request Sample2.flaky "Japan" None None)))
      <= Z.to_nat (3 - 1))%nat.
Proof.
  split; [vm_compute; reflexivity|].
  apply (sleep_discipline Sample2.flaky "Japan" None None
           Sample.found Sample.links 3 Sample.call_gemini Sample.parser_module).
  constructor; reflexivity.
Defined.

(** X11.  The 502 error for a failed upstream call has one cause: it is
    raised only when [MAX_RETRIES] calls of the completion client have
    been made and the last one raised.  Earlier attempts may have ended
    in any retryable way. *)
Theorem upstream_failed_after_last_call
    (w : World) (country : string) (limit : option Z) (model : option string)
    (sd : search_dict) (links_list : list Link) (n : Z) (cg parser_mod : module)
    (tr : trace) :
  reaches_loop w country limit sd links_list n cg parser_mod ->
  request w country limit model
  = Raise (HTTPException 502 "Upstream Gemini call failed repeatedly.") tr ->
  (1 <= n)%Z
  /\ count is_generate tr = Z.to_nat n
  /\ exists pre sp p m e,
       tr = pre ++ [Generate sp p m (inl e)] /\ isinstance_Exception e = true.
Proof.
  intros Hready Hreq.
  rewrite (request_ready w country limit model _ _ _ _ _ Hready) in Hreq.
  pose proof (request_loop_run w country limit model sd links_list n cg parser_mod)
    as Hrun. cbv zeta in Hrun.
  destruct (retry_loop w model (environ w !! "GEMINI_STRONG_MODEL")
              (environ w !! "GEMINI_FAST_MODEL") n
              (system_prompt (json_dumps links_list)) (Z.to_nat n) 0 None
              (setup_trace country limit sd cg parser_mod))
    as [[parsed|] tr1|v tr1|e tr1|] eqn:Hc; simpl in Hreq; try discriminate Hreq.
  - destruct (add_links_to_locations w parsed links_list) as [e|final];
      [destruct (isinstance_Exception e) eqn:He|]; try discriminate Hreq.
    injection Hreq as -> _. discriminate He.
  - injection Hreq as -> ->.
    destruct (run_upstream_failed _ _ _ _ _ _ _ _ _ _ _ Hrun eq_refl)
      as (ext & sp & up & m & e & -> & He & Hcount & Hlt).
    split; [lia|]. split.
    + rewrite count_app, Hcount. simpl. f_equal. lia.
    + exists (setup_trace country limit sd cg parser_mod ++ ext), sp, up, m, e.
      rewrite <- app_assoc. split; [reflexivity|exact He].
Qed.

Lemma upstream_failed_after_last_call_witness :
  (1 <= 3)%Z
  /\ count is_generate (trace_of (request Sample.client_down "Japan" None None))
     = Z.to_nat 3
  /\ exists pre sp p m e,
       trace_of (request Sample.client_down "Japan" None None)
       = pre ++ [Generate sp p m (inl e)] /\ isinstance_Exception e = true.
Proof.
  apply (upstream_failed_after_last_call Sample.client_down "Japan" None None
           Sample.found Sample.links 3 Sample.call_gemini Sample.parser_module).
  - constructor; reflexivity.
  - vm_compute. reflexivity.
Defined.

Lemma last_event (P : event -> Prop) (tr pre : trace) (ev : event) :
  Forall P tr -> tr = pre ++ [ev] -> P ev.
Proof.
  intros Hall ->. apply Forall_app in Hall as [_ Hall].
  apply Forall_cons in Hall as [Hev _]. exact Hev.
Qed.

(** X12.  When the link helper returns, the request returns exactly the
    helper's list: nothing is filtered, reordered or added after it. *)
Theorem helper_output_returned
    (w : World) (country : string) (limit : option Z) (model : option string)
    (pre : trace) (parsed final : list Location) (links : list Link) :
  trace_of (request w country limit model)
  = pre ++ [AddLinks parsed links (inr final)] ->
  request w country limit model
  = Return final (pre ++ [AddLinks parsed links (inr final)]).
Proof.
  intros Htrace.
  destruct (request_cases w country limit model)
    as [(sd & links_list & n & cg & parser_mod & Hready)
       |(tr & Hsetup & Hreq)].
  - rewrite (request_ready w country limit model _ _ _ _ _ Hready) in *.
    pose proof (request_loop_run w country limit model sd links_list n cg parser_mod)
      as Hrun. cbv zeta in Hrun.
    destruct (run_shape _ _ _ _ _ _ _ _ _ _ Hrun) as (ext & Hext & Hev & _).
    assert (Hloop : forall tr1,
      tr1 = setup_trace country limit sd cg parser_mod ++ ext ->
      tr1 <> pre ++ [AddLinks parsed links (inr final)]).
    { intros tr1 -> Heq.
      assert (Hall : Forall (fun ev => is_setup ev = true
                                       \/ attempt_event
                                            (system_prompt (json_dumps links_list))
                                            n 0 ev)
                       (setup_trace country limit sd cg parser_mod ++ ext)).
      { apply Forall_app. split; [repeat constructor; now left|].
        eapply Forall_impl; [exact Hev|]. intros ev; now right. }
      destruct (last_event _ _ _ _ Hall Heq) as [H|H]; [discriminate H|exact H]. }
    destruct (retry_loop w model (environ w !! "GEMINI_STRONG_MODEL")
                (environ w !! "GEMINI_FAST_MODEL") n
                (system_prompt (json_dumps links_list)) (Z.to_nat n) 0 None
                (setup_trace country limit sd cg parser_mod))
      as [[parsed'|] tr1|v tr1|e tr1|] eqn:Hc; simpl in Hext;
      try (exfalso; simpl in Htrace; exact (Hloop _ Hext Htrace)).
    rewrite trace_of_finish_parsed in Htrace.
    apply app_inj_tail in Htrace as [-> Hev'].
    injection Hev' as -> -> Hr. simpl. rewrite Hr. reflexivity.
  - exfalso.
    assert (Htr : trace_of (request w country limit model) = tr)
      by (destruct Hreq as [->|[e ->]]; reflexivity).
    rewrite Htr in Htrace.
    pose proof (last_event _ _ _ _ Hsetup Htrace) as H. discriminate H.
Qed.

Lemma helper_output_returned_witness :
  request Sample.second_try "Japan" None None
  = Return [<["link" := VStr "https://a.example/1"]> Sample.japan]
      ((setup_trace "Japan" None Sample.found Sample.call_gemini
          Sample.parser_module
        ++ [Generate (system_prompt (json_dumps Sample.links)) "" None
              (inr (GenStr "ERROR"));
            Parse "ERROR" (inr (Some []));
            Sleep 0.6;
            Generate (system_prompt (json_dumps Sample.links)) "" None
              (inr (GenStr Sample.japan_text));
            Parse Sample.japan_text (inr (Some [Sample.japan]))])
       ++ [AddLinks [Sample.japan] Sample.links
             (inr [<["link" := VStr "https://a.example/1"]> Sample.japan])]).
Proof.
  apply (helper_output_returned Sample.second_try "Japan" None None).
  vm_compute. reflexivity.
Defined.

(** * The allowed origins of the application *)

(** ** Stripping *)

Section StripBy.

Variable p2 : ascii -> ascii -> bool.
Variable p3 : ascii -> ascii -> ascii -> bool.

(** What is dropped is a prefix. *)
Lemma lstrip_by_prefix (s : list ascii) :
  exists sp, s = sp ++ lstrip_by p2 p3 s.
Proof.
  induction s as [s IH] using (induction_ltof1 _ (@length ascii)).
  assert (Hrec : forall sp rest,
    s = sp ++ rest -> sp <> [] ->
    exists sp', s = sp' ++ lstrip_by p2 p3 rest).
  { intros sp rest -> Hsp.
    destruct (IH rest) as (sp' & Hrest).
    - unfold ltof. rewrite length_app. destruct sp; [contradiction|simpl; lia].
    - exists (sp ++ sp'). rewrite <- app_assoc, <- Hrest. reflexivity. }
  destruct s as [|b1 [|b2 [|b3 s3]]]; simpl.
  - exists []. reflexivity.
  - destruct (is_space b1); [exists [b1]|exists []]; reflexivity.
  - destruct (is_space b1); [exact (Hrec [b1] _ eq_refl ltac:(discriminate))|].
    destruct (p2 b1 b2); [exists [b1; b2]|exists []]; reflexivity.
  - destruct (is_space b1); [exact (Hrec [b1] _ eq_refl ltac:(discriminate))|].
    destruct (p2 b1 b2); [exact (Hrec [b1; b2] _ eq_refl ltac:(discriminate))|].
    destruct (p3 b1 b2 b3);
      [exact (Hrec [b1; b2; b3] _ eq_refl ltac:(discriminate))|].
    exists []. reflexivity.
Qed.

(** What is left does not start with white space. *)
Lemma lstrip_by_ahead (s : list ascii) :
  space_ahead p2 p3 (lstrip_by p2 p3 s) = false.
Proof.
  induction s as [s IH] using (induction_ltof1 _ (@length ascii)).
  assert (Hrec : forall rest, (length rest < length s)%nat ->
                 space_ahead p2 p3 (lstrip_by p2 p3 rest) = false)
    by (intros rest Hlt; apply IH; exact Hlt).
  clear IH.
  destruct s as [|b1 [|b2 [|b3 s3]]]; [reflexivity|..].
  - simpl. destruct (is_space b1) eqn:H1; simpl; rewrite ?H1; reflexivity.
  - destruct (is_space b1) eqn:H1.
    + specialize (Hrec [b2] ltac:(simpl; lia)). simpl in *. rewrite H1.
      exact Hrec.
    + simpl. rewrite H1.
      destruct (p2 b1 b2) eqn:H2; simpl; rewrite ?H1, ?H2; reflexivity.
  - destruct (is_space b1) eqn:H1.
    + specialize (Hrec (b2 :: b3 :: s3) ltac:(simpl; lia)).
      change (lstrip_by p2 p3 (b1 :: b2 :: b3 :: s3))
        with (if is_space b1 then lstrip_by p2 p3 (b2 :: b3 :: s3)
              else if p2 b1 b2 then lstrip_by p2 p3 (b3 :: s3)
              else if p3 b1 b2 b3 then lstrip_by p2 p3 s3
              else b1 :: b2 :: b3 :: s3).
      rewrite H1. exact Hrec.
    + change (lstrip_by p2 p3 (b1 :: b2 :: b3 :: s3))
        with (if is_space b1 then lstrip_by p2 p3 (b2 :: b3 :: s3)
              else if p2 b1 b2 then lstrip_by p2 p3 (b3 :: s3)
              else if p3 b1 b2 b3 then lstrip_by p2 p3 s3
              else b1 :: b2 :: b3 :: s3).
      rewrite H1.
      destruct (p2 b1 b2) eqn:H2; [apply Hrec; simpl; lia|].
      destruct (p3 b1 b2 b3) eqn:H3; [apply Hrec; simpl; lia|].
      simpl. rewrite H1, H2, H3. reflexivity.
Qed.

Lemma lstrip_by_fixed (s : list ascii) :
  space_ahead p2 p3 s = false -> lstrip_by p2 p3 s = s.
Proof.
  destruct s as [|b1 [|b2 [|b3 s3]]]; simpl; [reflexivity|..].
  - rewrite orb_false_r. intros ->. reflexivity.
  - rewrite orb_false_r. intros H.
    apply orb_false_elim in H as [-> ->]. reflexivity.
  - intros H. apply orb_false_elim in H as [-> H].
    apply orb_false_elim in H as [-> ->]. reflexivity.
Qed.

Lemma lstrip_by_twice (s : list ascii) :
  lstrip_by p2 p3 (lstrip_by p2 p3 s) = lstrip_by p2 p3 s.
Proof. apply lstrip_by_fixed, lstrip_by_ahead. Qed.

(** White space at the front stays at the front of a longer text. *)
Lemma space_ahead_app (s t : list ascii) :
  space_ahead p2 p3 s = true -> space_ahead p2 p3 (s ++ t) = true.
Proof.
  destruct s as [|b1 [|b2 [|b3 s3]]]; simpl; try discriminate.
  - rewrite orb_false_r. intros ->. reflexivity.
  - rewrite orb_false_r. intros H. apply orb_true_iff in H as [H|H];
      rewrite H; [reflexivity|]. rewrite orb_true_l, orb_true_r. reflexivity.
  - intros H. exact H.
Qed.

Lemma lstrip_by_all_spaces (s : list ascii) :
  Forall (fun c => is_space c = true) s -> lstrip_by p2 p3 s = [].
Proof.
  induction 1 as [|c s Hc _ IH]; simpl; [reflexivity|]. rewrite Hc. exact IH.
Qed.

End StripBy.

(** [strip] cuts a piece out of the text. *)
Lemma strip_inside (s : list ascii) :
  exists before after, s = before ++ strip s ++ after.
Proof.
  unfold strip, lstrip, lstrip_reversed.
  destruct (lstrip_by_prefix space2 space3 s) as (before & Hs).
  destruct (lstrip_by_prefix (fun b2 b1 => space2 b1 b2)
              (fun b3 b2 b1 => space3 b1 b2 b3)
              (rev (lstrip_by space2 space3 s))) as (sp & Hrev).
  exists before, (rev sp).
  rewrite <- rev_app_distr, <- Hrev, rev_involutive. exact Hs.
Qed.

Lemma strip_head (s : list ascii) : lstrip (strip s) = strip s.
Proof.
  apply lstrip_by_fixed.
  destruct (space_ahead space2 space3 (strip s)) eqn:Hahead; [|reflexivity].
  destruct (lstrip_by_prefix (fun b2 b1 => space2 b1 b2)
              (fun b3 b2 b1 => space3 b1 b2 b3) (rev (lstrip s))) as (sp & Hrev).
  assert (Hx : lstrip s = strip s ++ rev sp).
  { unfold strip, lstrip_reversed.
    rewrite <- rev_app_distr, <- Hrev, rev_involutive. reflexivity. }
  pose proof (lstrip_by_ahead space2 space3 s) as Hhead.
  fold (lstrip s) in Hhead. rewrite Hx in Hhead.
  rewrite (space_ahead_app _ _ _ _ Hahead) in Hhead. discriminate.
Qed.

Lemma strip_strip (s : list ascii) : strip (strip s) = strip s.
Proof.
  unfold strip at 1. rewrite strip_head. unfold strip at 1.
  rewrite rev_involutive. unfold lstrip_reversed.
  rewrite lstrip_by_twice. reflexivity.
Qed.

Lemma strip_all_spaces (s : list ascii) :
  Forall (fun c => is_space c = true) s -> strip s = [].
Proof.
  intros Hs. unfold strip, lstrip.
  rewrite (lstrip_by_all_spaces _ _ s Hs). reflexivity.
Qed.

Lemma strip_subset (s : list ascii) (c : ascii) : In c (strip s) -> In c s.
Proof.
  intros Hin. destruct (strip_inside s) as (before & after & Hs).
  rewrite Hs. apply in_or_app. right. apply in_or_app. now left.
Qed.

(** ** Splitting *)

Lemma split_not_nil (sep : ascii) (s : list ascii) : Main.split sep s <> [].
Proof.
  induction s as [|c s IH]; simpl; [discriminate|].
  destruct (Ascii.eqb c sep); [discriminate|].
  destruct (Main.split sep s); discriminate.
Qed.

(** The pieces are made of characters of the text other than the
    separator. *)
Lemma split_pieces (P : ascii -> Prop) (sep : ascii) (s : list ascii) :
  Forall P s ->
  Forall (Forall (fun c => P c /\ c <> sep)) (Main.split sep s).
Proof.
  induction 1 as [|c s Hc _ IH]; simpl; [repeat constructor|].
  destruct (Ascii.eqb_spec c sep) as [->|Hne].
  - constructor; [constructor|exact IH].
  - destruct (Main.split sep s) as [|piece pieces]; [repeat constructor; auto|].
    apply Forall_cons in IH as [Hpiece Hpieces].
    constructor; [|exact Hpieces]. constructor; [split; assumption|exact Hpiece].
Qed.

Lemma split_whole (sep : ascii) (a : list ascii) :
  ~ In sep a -> Main.split sep a = [a].
Proof.
  induction a as [|c a IH]; simpl; intros Hnot; [reflexivity|].
  destruct (Ascii.eqb_spec c sep) as [->|Hne]; [tauto|].
  rewrite IH by tauto. reflexivity.
Qed.

Lemma split_at_sep (sep : ascii) (a b : list ascii) :
  ~ In sep a -> Main.split sep (a ++ sep :: b) = a :: Main.split sep b.
Proof.
  induction a as [|c a IH]; simpl; intros Hnot.
  - rewrite Ascii.eqb_refl. reflexivity.
  - destruct (Ascii.eqb_spec c sep) as [->|Hne]; [tauto|].
    rewrite IH by tauto. reflexivity.
Qed.

(** ** Strings and their characters *)

Lemma chars_app (s1 s2 : string) :
  list_ascii_of_string (s1 ++ s2)%string
  = list_ascii_of_string s1 ++ list_ascii_of_string s2.
Proof. induction s1 as [|c s1 IH]; simpl; [reflexivity|]. rewrite IH. reflexivity. Qed.

Lemma truthy_chars (s : string) :
  Main.truthy s = truthy_list (list_ascii_of_string s).
Proof. destruct s; reflexivity. Qed.

Lemma str_strip_chars (s : string) :
  list_ascii_of_string (Main.str_strip s) = strip (list_ascii_of_string s).
Proof. apply list_ascii_of_string_of_list_ascii. Qed.

Lemma str_strip_idempotent (s : string) :
  Main.str_strip (Main.str_strip s) = Main.str_strip s.
Proof.
  unfold Main.str_strip at 1. rewrite str_strip_chars, strip_strip. reflexivity.
Qed.

Lemma clean_fixed (o : string) :
  Main.clean o ->
  Main.truthy (Main.str_strip o) = true /\ Main.str_strip o = o.
Proof.
  intros (Hne & Hstrip & _). rewrite Hstrip. split; [|reflexivity].
  destruct o; [contradiction|reflexivity].
Qed.

(** The comma-separated text of clean origins splits back into them. *)
Lemma str_split_join (o : string) (os : list string) :
  Forall Main.clean (o :: os) ->
  Main.str_split "," (join "," (o :: os)) = o :: os.
Proof.
  revert o. induction os as [|o' os IH]; intros o Hclean;
    apply Forall_cons in Hclean as [(_ & _ & Hcomma) Hrest].
  - unfold Main.str_split. simpl join. rewrite split_whole by exact Hcomma.
    simpl. rewrite string_of_list_ascii_of_string. reflexivity.
  - specialize (IH o' Hrest). unfold Main.str_split in *.
    change (join "," (o :: o' :: os))
      with (o ++ "," ++ join "," (o' :: os))%string.
    rewrite chars_app. simpl list_ascii_of_string at 2.
    rewrite split_at_sep by exact Hcomma.
    simpl map. rewrite string_of_list_ascii_of_string. f_equal. exact IH.
Qed.

(** Keeping the non-blank pieces and stripping them gives clean origins. *)
Lemma stripped_pieces_clean (pieces : list string) :
  Forall (fun o => ~ In ","%char (list_ascii_of_string o)) pieces ->
  Forall Main.clean
    (map Main.str_strip
       (List.filter (fun o => Main.truthy (Main.str_strip o)) pieces)).
Proof.
  induction 1 as [|o pieces Ho _ IH]; simpl; [constructor|].
  destruct (Main.truthy (Main.str_strip o)) eqn:Htruthy; [|exact IH].
  simpl. constructor; [|exact IH]. split; [|split].
  - intros Hempty. rewrite Hempty in Htruthy. discriminate.
  - apply str_strip_idempotent.
  - rewrite str_strip_chars. intros Hin. apply Ho. exact (strip_subset _ _ Hin).
Qed.

Lemma str_split_comma_free (s : string) :
  Forall (fun o => ~ In ","%char (list_ascii_of_string o)) (Main.str_split "," s).
Proof.
  unfold Main.str_split.
  pose proof (split_pieces (fun _ => True) ","%char (list_ascii_of_string s)) as H.
  specialize (H ltac:(apply List.Forall_forall; intros; exact I)).
  induction H as [|piece pieces Hpiece _ IH]; simpl; constructor; [|exact IH].
  rewrite list_ascii_of_string_of_list_ascii. intros Hin.
  apply (proj1 (List.Forall_forall _ _) Hpiece) in Hin. tauto.
Qed.

Lemma default_origin_clean : Main.clean Main.default_origin.
Proof.
  split; [discriminate|]. split; [vm_compute; reflexivity|].
  vm_compute. intuition discriminate.
Qed.

(** ** The origins handed to the CORS middleware *)

Lemma clean_origins_kept (l : list string) :
  Forall Main.clean l ->
  map Main.str_strip (List.filter (fun o => Main.truthy (Main.str_strip o)) l) = l.
Proof.
  induction 1 as [|x xs Hx _ IH]; [reflexivity|].
  destruct (clean_fixed x Hx) as [Htruthy Hfixed].
  simpl. rewrite Htruthy. simpl. rewrite Hfixed. f_equal. exact IH.
Qed.

Lemma blank_pieces_dropped (pieces : list (list ascii)) :
  Forall (Forall (fun c => is_space c = true)) pieces ->
  map Main.str_strip
    (List.filter (fun o => Main.truthy (Main.str_strip o))
       (map string_of_list_ascii pieces))
  = [].
Proof.
  induction 1 as [|piece pieces Hpiece _ IH]; [reflexivity|].
  assert (Hblank : Main.str_strip (string_of_list_ascii piece) = "").
  { unfold Main.str_strip.
    rewrite list_ascii_of_string_of_list_ascii, strip_all_spaces by exact Hpiece.
    reflexivity. }
  simpl. rewrite Hblank. simpl. exact IH.
Qed.

(** X13.  Whatever [FRONTEND_ORIGINS] holds, the list of allowed origins
    is never empty, and every entry is a non-empty string without
    surrounding white space and without a comma. *)
Theorem allowed_origins_clean (environ : gmap string string) :
  Main.allow_origins environ <> []
  /\ Forall Main.clean (Main.allow_origins environ).
Proof.
  assert (Hclean : Forall Main.clean (Main.origins environ))
    by apply stripped_pieces_clean, str_split_comma_free.
  unfold Main.allow_origins.
  destruct (Main.origins environ) as [|o os]; split; try discriminate.
  - constructor; [apply default_origin_clean|constructor].
  - exact Hclean.
Qed.

(** X14.  Round trip: the comma-separated text of a list of clean
    origins is read back as exactly that list, in order; a non-empty
    list is then what the middleware is given. *)
Theorem origins_round_trip (environ : gmap string string) (l : list string) :
  Forall Main.clean l ->
  environ !! "FRONTEND_ORIGINS" = Some (join "," l) ->
  Main.origins environ = l
  /\ (l <> [] -> Main.allow_origins environ = l).
Proof.
  intros Hclean Henv.
  assert (Horigins : Main.origins environ = l).
  { unfold Main.origins. rewrite Henv. simpl default.
    destruct l as [|o os]; [reflexivity|].
    rewrite (str_split_join o os Hclean).
    apply clean_origins_kept. exact Hclean. }
  split; [exact Horigins|].
  intros Hne. unfold Main.allow_origins. rewrite Horigins.
  destruct l; [contradiction|reflexivity].
Qed.

Lemma origins_round_trip_witness :
  Main.origins
    {[ "FRONTEND_ORIGINS" := "http://localhost:3000,https://app.example" ]}
  = ["http://localhost:3000"; "https://app.example"]
  /\ (["http://localhost:3000"; "https://app.example"] <> [] ->
      Main.allow_origins
        {[ "FRONTEND_ORIGINS" := "http://localhost:3000,https://app.example" ]}
      = ["http://localhost:3000"; "https://app.example"]).
Proof.
  apply (origins_round_trip
           {[ "FRONTEND_ORIGINS" := "http://localhost:3000,https://app.example" ]}
           ["http://localhost:3000"; "https://app.example"]).
  - repeat constructor; try discriminate; try (vm_compute; reflexivity);
      vm_compute; intuition discriminate.
  - reflexivity.
Defined.

(** X15.  A setting that holds nothing but commas and white space
    configures no origin: the middleware falls back to the default
    origin alone. *)
Theorem blank_origins_fall_back (environ : gmap string string) (v : string) :
  environ !! "FRONTEND_ORIGINS" = Some v ->
  Forall (fun c => c = ","%char \/ is_space c = true) (list_ascii_of_string v) ->
  Main.origins environ = []
  /\ Main.allow_origins environ = ["http://localhost:3000"].
Proof.
  intros Henv Hblank.
  assert (Horigins : Main.origins environ = []).
  { unfold Main.origins, Main.str_split. rewrite Henv. simpl default.
    apply blank_pieces_dropped.
    eapply Forall_impl; [exact (split_pieces _ ","%char _ Hblank)|].
    intros piece Hpiece. eapply Forall_impl; [exact Hpiece|].
    intros c [[Hc|Hc] Hne]; tauto. }
  split; [exact Horigins|].
  unfold Main.allow_origins. rewrite Horigins. reflexivity.
Qed.

Lemma blank_origins_fall_back_witness :
  Main.origins {[ "FRONTEND_ORIGINS" := " , ,, " ]} = []
  /\ Main.allow_origins {[ "FRONTEND_ORIGINS" := " , ,, " ]}
     = ["http://localhost:3000"].
Proof.
  apply (blank_origins_fall_back {[ "FRONTEND_ORIGINS" := " , ,, " ]} " , ,, ").
  - reflexivity.
  - repeat constructor; solve [now left | now right].
Defined.

(** With the variable unset the default origin is the only one; padding
    and empty entries are dropped. *)
Example origins_samples :
  Main.allow_origins ∅ = ["http://localhost:3000"]
  /\ Main.allow_origins
       {[ "FRONTEND_ORIGINS" := " https://a.example , ,https://b.example," ]}
     = ["https://a.example"; "https://b.example"].
Proof. split; vm_compute; reflexivity. Qed.

(** * When the completion client is reached *)

Lemma count_positive (p : event -> bool) (tr : trace) (ev : event) :
  In ev tr -> p ev = true -> (1 <= count p tr)%nat.
Proof.
  induction tr as [|ev' tr IH]; simpl; [contradiction|].
  intros [->|Hin] Hp; [rewrite Hp; lia|].
  specialize (IH Hin Hp). lia.
Qed.

(** X16.  The completion client is called only by a request that got
    through all of setup: the search returned links, the retry setting is
    a number and at least 1, and both modules were imported with their
    functions callable. *)
Theorem client_called_only_when_ready
    (w : World) (country : string) (limit : option Z) (model : option string)
    (sp p : string) (m : option string) (r : result gen_value) :
  In (Generate sp p m r) (trace_of (request w country limit model)) ->
  exists sd links_list n cg parser_mod,
    reaches_loop w country limit sd links_list n cg parser_mod /\ (1 <= n)%Z.
Proof.
  intros Hin.
  destruct (request_cases w country limit model)
    as [(sd & links_list & n & cg & parser_mod & Hready)
       |(tr & Hsetup & Hreq)].
  - exists sd, links_list, n, cg, parser_mod. split; [exact Hready|].
    pose proof (client_calls_bounded w country limit model _ _ _ _ _ Hready) as Hle.
    pose proof (count_positive is_generate _ _ Hin eq_refl) as Hpos. lia.
  - exfalso.
    assert (Htr : trace_of (request w country limit model) = tr)
      by (destruct Hreq as [->|[e ->]]; reflexivity).
    rewrite Htr in Hin.
    apply (proj1 (List.Forall_forall _ _) Hsetup) in Hin. discriminate.
Qed.

Lemma client_called_only_when_ready_witness :
  exists sd links_list n cg parser_mod,
    reaches_loop Sample.second_try "Japan" None sd links_list n cg parser_mod
    /\ (1 <= n)%Z.
Proof.
  apply (client_called_only_when_ready Sample.second_try "Japan" None None
           (system_prompt (json_dumps Sample.links)) "" None
           (inr (GenStr "ERROR"))).
  vm_compute. do 3 right. left. reflexivity.
Defined.

(** * Model selection, attempt by attempt *)

Lemma split_block (block ext pre post : trace) (ev : event) :
  block ++ ext = pre ++ ev :: post ->
  (exists rest, block = pre ++ ev :: rest /\ post = rest ++ ext)
  \/ (exists pre', pre = block ++ pre' /\ ext = pre' ++ ev :: post).
Proof.
  intros Heq. apply app_eq_app in Heq as [l [[Hl Hr]|[Hl Hr]]].
  - destruct l as [|x l].
    + right. exists []. rewrite app_nil_r in Hl |- *. simpl in Hr. auto.
    + left. injection Hr as -> ->. exists l. auto.
  - right. exists l. auto.
Qed.

Section RetryCalls.

Variable w : World.
Variables (model STRONG_MODEL FAST_MODEL : option string).
Variable (MAX_RETRIES : Z).
Variable (prompt : string).

Let run := loop_run w model STRONG_MODEL FAST_MODEL MAX_RETRIES prompt.

(** The call that attempt [k + 1] makes. *)
Let call (k : nat) : event :=
  Generate prompt "" (keyword model STRONG_MODEL FAST_MODEL (Z.of_nat (S k)))
    (generate_response w k prompt ""
       (keyword model STRONG_MODEL FAST_MODEL (Z.of_nat (S k)))).

Lemma gen_event_call (tr : trace) (j : nat) :
  count is_generate tr = j ->
  gen_event w model STRONG_MODEL FAST_MODEL prompt tr (Z.of_nat j + 1) = call j.
Proof.
  intros <-. subst call. unfold gen_event, gen_answer. cbv beta.
  replace (Z.of_nat (S (count is_generate tr)))
    with (Z.of_nat (count is_generate tr) + 1)%Z by lia.
  reflexivity.
Qed.

(** After a retryable event of an attempt that is not the last, the loop
    sleeps and makes the call of the next attempt. *)
Lemma run_retry_calls a p tr c :
  run a p tr c ->
  forall j : nat,
    a = Z.of_nat j -> count is_generate tr = j ->
    forall pre ev post,
      trace_of c = tr ++ pre ++ ev :: post ->
      retryable ev = true ->
      (Z.of_nat (count is_generate (tr ++ pre ++ [ev])) < MAX_RETRIES)%Z ->
      exists q rest,
        post = Sleep q :: call (count is_generate (tr ++ pre ++ [ev])) :: rest.
Proof.
  subst run.
  induction 1 as
    [a p tr Ha | a p tr e Ha Hg He | a p tr e c Ha Hg He Hn Hrun IH
    | a p tr e Ha Hg He Hn | a p tr g e Ha Hg Hp He | a p tr g x l Ha Hg Hp
    | a p tr g c Ha Hg Hp Hrun IH];
    intros j Hj Hcount pre ev post Htrace Hretry Hleft;
    cbn [trace_of] in Htrace.
  - rewrite <- (app_nil_r tr) in Htrace at 1. apply app_inv_head in Htrace.
    destruct pre; discriminate.
  - apply app_inv_head in Htrace.
    destruct pre as [|x1 [|x2 pre]]; cbn [app] in Htrace;
      [|discriminate Htrace..].
    injection Htrace as <- <-.
    unfold gen_event in Hretry. rewrite Hg in Hretry. simpl in Hretry.
    congruence.
  - apply Z.ltb_lt in Hn.
    destruct (run_first_call _ _ _ _ _ _ _ _ _ _ Hrun) as (rest1 & Htr1);
      [lia|].
    rewrite Htr1, <- app_assoc in Htrace. apply app_inv_head in Htrace.
    apply split_block in Htrace as [(b2 & Hb & ->)|(pre1 & -> & Hext)].
    + destruct pre as [|x1 [|x2 [|x3 pre]]]; cbn [app] in Hb;
        [| |discriminate Hb..].
      * injection Hb as <- <-.
        exists (transport_backoff (a + 1)), rest1. cbn [app]. do 2 f_equal.
        rewrite count_app. cbn [app count is_generate gen_event Nat.add].
        rewrite <- (gen_event_call
                      (tr ++ [gen_event w model STRONG_MODEL FAST_MODEL prompt
                                tr (a + 1);
                              Sleep (transport_backoff (a + 1))])
                      (count is_generate tr + 1)).
        -- f_equal. lia.
        -- rewrite count_app. reflexivity.
      * injection Hb as _ <- _. discriminate Hretry.
    + replace (tr ++ ([gen_event w model STRONG_MODEL FAST_MODEL prompt tr
                         (a + 1);
                       Sleep (transport_backoff (a + 1))] ++ pre1) ++ [ev])
        with ((tr ++ [gen_event w model STRONG_MODEL FAST_MODEL prompt tr
                        (a + 1);
                      Sleep (transport_backoff (a + 1))]) ++ pre1 ++ [ev])
        in * by (rewrite <- !app_assoc; reflexivity).
      apply (IH (S j)); try assumption.
      * lia.
      * rewrite count_app. simpl. lia.
      * rewrite Htr1, Hext. reflexivity.
  - apply app_inv_head in Htrace. apply Z.ltb_ge in Hn.
    destruct pre as [|x1 [|x2 pre]]; cbn [app] in Htrace;
      [|discriminate Htrace..].
    injection Htrace as <- <-.
    rewrite count_app in Hleft. simpl in Hleft. lia.
  - apply app_inv_head in Htrace.
    destruct pre as [|x1 [|x2 [|x3 pre]]]; cbn [app] in Htrace;
      [| |discriminate Htrace..].
    + injection Htrace as <- _.
      unfold gen_event in Hretry. rewrite Hg in Hretry. discriminate.
    + injection Htrace as _ <- <-.
      unfold parse_event in Hretry. rewrite Hp in Hretry. simpl in Hretry.
      rewrite He in Hretry. discriminate.
  - apply app_inv_head in Htrace.
    destruct pre as [|x1 [|x2 [|x3 pre]]]; cbn [app] in Htrace;
      [| |discriminate Htrace..].
    + injection Htrace as <- _.
      unfold gen_event in Hretry. rewrite Hg in Hretry. discriminate.
    + injection Htrace as _ <- <-.
      unfold parse_event in Hretry. rewrite Hp in Hretry. discriminate.
  - destruct (run_shape _ _ _ _ _ _ _ _ _ _ Hrun) as (ext1 & Htr1 & _).
    assert (Hnext : (a + 1 <? MAX_RETRIES)%Z = true ->
                    exists rest1, ext1 = call (S j) :: rest1).
    { intros Hn. apply Z.ltb_lt in Hn.
      destruct (run_first_call _ _ _ _ _ _ _ _ _ _ Hrun) as (rest1 & Hfirst);
        [lia|].
      rewrite Htr1 in Hfirst. apply app_inv_head in Hfirst.
      exists rest1. rewrite Hfirst. f_equal.
      replace (a + 1 + 1)%Z with (Z.of_nat (S j) + 1)%Z by lia.
      apply gen_event_call. rewrite !count_app. unfold pause_after_empty.
      destruct (a + 1 <? MAX_RETRIES)%Z; simpl; lia. }
    rewrite Htr1, <- app_assoc in Htrace. apply app_inv_head in Htrace.
    apply split_block in Htrace as [(b2 & Hb & ->)|(pre1 & -> & Hext)].
    + unfold pause_after_empty in Hb.
      destruct (a + 1 <? MAX_RETRIES)%Z eqn:Hn.
      * destruct (Hnext eq_refl) as (rest1 & ->).
        destruct pre as [|x1 [|x2 [|x3 [|x4 pre]]]]; cbn [app] in Hb;
          [| | |discriminate Hb..].
        -- injection Hb as <- _.
           unfold gen_event in Hretry. rewrite Hg in Hretry. discriminate.
        -- injection Hb as <- <- <-.
           exists (parse_backoff (a + 1)), rest1. cbn [app].
           match goal with
           | |- _ = _ :: call ?k :: _ => replace k with (S j); [reflexivity|]
           end.
           rewrite !count_app. unfold gen_event. simpl. lia.
        -- injection Hb as _ _ <- _. discriminate Hretry.
      * apply Z.ltb_ge in Hn.
        destruct pre as [|x1 [|x2 [|x3 pre]]]; cbn [app] in Hb;
          [| |discriminate Hb..].
        -- injection Hb as <- _.
           unfold gen_event in Hretry. rewrite Hg in Hretry. discriminate.
        -- injection Hb as <- <- _.
           rewrite !count_app in Hleft. unfold gen_event in Hleft.
           simpl in Hleft. lia.
    + set (block := [gen_event w model STRONG_MODEL FAST_MODEL prompt tr
                       (a + 1);
                     parse_event w tr (str_of g)]
                    ++ pause_after_empty MAX_RETRIES (a + 1)) in *.
      replace (tr ++ (block ++ pre1) ++ [ev])
        with ((tr ++ block) ++ pre1 ++ [ev])
        in * by (rewrite <- !app_assoc; reflexivity).
      apply (IH (S j)); try assumption.
      * lia.
      * subst block. rewrite !count_app. unfold pause_after_empty.
        destruct (a + 1 <? MAX_RETRIES)%Z; simpl; lia.
      * rewrite Htr1, Hext. reflexivity.
Qed.

End RetryCalls.

(** C4.  Model selection per attempt.  Every call of the completion client
    carries the model selected for its attempt: the caller's model when one
    is supplied; otherwise the fast model on attempt 1 and, from attempt 2
    on, the strong model when configured, else the fast model, else none.
    And the attempts do make these calls: once setup has succeeded with at
    least one retry configured, the first thing the loop does is call the
    client - call number 0, with the rendered prompt, an empty user prompt
    and the model selected for attempt 1 - and after every event that sends
    the loop round again (a call that failed with an [Exception], or a parse
    that gave nothing) while attempts remain, the loop sleeps once and calls
    the client again with the model selected for the next attempt. *)
Theorem model_selection
    (w : World) (country : string) (limit : option Z) (model : option string)
    (sd : search_dict) (links_list : list Link) (n : Z)
    (cg parser_mod : module) :
  let tr := trace_of (request w country limit model) in
  let prompt := system_prompt (json_dumps links_list) in
  let selected :=
    selected_model model (environ w !! "GEMINI_FAST_MODEL")
      (environ w !! "GEMINI_STRONG_MODEL") in
  let call := fun k : nat =>
    Generate prompt "" (selected (S k))
      (generate_response w k prompt "" (selected (S k))) in
  reaches_loop w country limit sd links_list n cg parser_mod ->
  (1 <= n)%Z ->
  generate_models tr = map selected (seq 1 (count is_generate tr))
  /\ (exists rest,
        tr = setup_trace country limit sd cg parser_mod ++ call 0%nat :: rest)
  /\ (forall pre ev post,
        tr = pre ++ ev :: post ->
        retryable ev = true ->
        (Z.of_nat (count is_generate (pre ++ [ev])) < n)%Z ->
        exists q rest,
          post = Sleep q :: call (count is_generate (pre ++ [ev])) :: rest).
Proof.
  intros tr prompt selected call Hready Hn.
  split; [apply calls_carry_selected_model|].
  subst tr. rewrite (request_ready w country limit model _ _ _ _ _ Hready).
  pose proof (request_loop_run w country limit model sd links_list n cg
                parser_mod) as Hrun.
  cbv zeta in Hrun. fold prompt in Hrun |- *.
  set (setup := setup_trace country limit sd cg parser_mod) in *.
  set (c := retry_loop w model (environ w !! "GEMINI_STRONG_MODEL")
              (environ w !! "GEMINI_FAST_MODEL") n prompt (Z.to_nat n) 0 None
              setup) in *.
  destruct (trace_of_finish w links_list c) as (tail & Htail & Hshape).
  destruct (run_first_call _ _ _ _ _ _ _ _ _ _ Hrun) as (rest & Hfirst);
    [lia|].
  split.
  - exists (rest ++ tail). rewrite Htail, Hfirst, <- app_assoc.
    do 2 f_equal. unfold gen_event, gen_answer. subst call selected.
    cbv beta. change (0 + 1)%Z with (Z.of_nat 1).
    rewrite keyword_selected. reflexivity.
  - intros pre ev post Htr Hretry Hleft.
    rewrite Htail in Htr.
    apply split_block in Htr as [(b2 & Hb & ->)|(pre1 & -> & Hext)].
    + rewrite Hfirst in Hb.
      apply split_block in Hb as [(b3 & Hb3 & _)|(pre1 & -> & Hext)].
      * exfalso. subst setup. unfold setup_trace in Hb3.
        destruct pre as [|x1 [|x2 [|x3 [|x4 pre]]]]; cbn [app] in Hb3;
          [| | |discriminate Hb3..].
        -- injection Hb3 as <- _. discriminate Hretry.
        -- injection Hb3 as _ <- _. discriminate Hretry.
        -- injection Hb3 as _ _ <- _. discriminate Hretry.
      * rewrite <- app_assoc in Hleft |- *.
        destruct (run_retry_calls _ _ _ _ _ _ _ _ _ _ Hrun 0%nat eq_refl
                    eq_refl pre1 ev b2) as (q & rest2 & ->);
          [rewrite Hfirst, Hext; reflexivity|assumption|assumption|].
        exists q, (rest2 ++ tail). cbn [app]. subst call selected. cbv beta.
        rewrite keyword_selected. reflexivity.
    + exfalso.
      destruct Hshape as [->|(parsed & r & _ & ->)].
      * destruct pre1; discriminate Hext.
      * destruct pre1 as [|x1 [|x2 pre1]]; cbn [app] in Hext;
          [|discriminate Hext..].
        injection Hext as <- _. discriminate Hretry.
Qed.

Lemma model_selection_witness :
  let tr := trace_of (request Sample.escalating "Japan" None None) in
  let prompt := system_prompt (json_dumps Sample.links) in
  generate_models tr = [Some "gemini-2.5-flash"; Some "gemini-2.5-pro"]
  /\ (exists rest,
        tr = setup_trace "Japan" None Sample.found Sample.call_gemini
               Sample.parser_module
             ++ Generate prompt "" (Some "gemini-2.5-flash")
                  (inr (GenStr "ERROR")) :: rest)
  /\ (exists pre post q rest,
        tr = pre ++ Parse "ERROR" (inr (Some [])) :: post
        /\ post = Sleep q
                  :: Generate prompt "" (Some "gemini-2.5-pro")
                       (inr (GenStr Sample.japan_text)) :: rest).
Proof.
  intros tr prompt.
  set (pre := setup_trace "Japan" None Sample.found Sample.call_gemini
                Sample.parser_module
              ++ [Generate prompt "" (Some "gemini-2.5-flash")
                    (inr (GenStr "ERROR"))]).
  set (post := [Sleep (parse_backoff 1);
                Generate prompt "" (Some "gemini-2.5-pro")
                  (inr (GenStr Sample.japan_text));
                Parse Sample.japan_text (inr (Some [Sample.japan]));
                AddLinks [Sample.japan] Sample.links
                  (inr (Sample.attach [Sample.japan] Sample.links))]).
  assert (Htr : tr = pre ++ Parse "ERROR" (inr (Some [])) :: post)
    by (vm_compute; reflexivity).
  destruct (model_selection Sample.escalating "Japan" None None Sample.found
              Sample.links 3 Sample.call_gemini Sample.parser_module)
    as (Hmodels & Hfirst & Hnext).
  - constructor; reflexivity.
  - lia.
  - split; [exact Hmodels|]. split; [exact Hfirst|].
    destruct (Hnext pre (Parse "ERROR" (inr (Some []))) post Htr eq_refl)
      as (q & rest & Hpost).
    + vm_compute. reflexivity.
    + exists pre, post, q, rest. split; [exact Htr|exact Hpost].
Defined.
